(** * cdr_amqp: the AMQP call-detail-record backend

    A shallow embedding of [cdr_amqp.c].  The module keeps one global
    configuration object ([confs]), rebuilt by the configuration framework on
    load and reload, and a CDR handler [amqp_cdr_log] that packs a record into
    a JSON object and publishes it through the connection held by the
    configuration.

    The C file calls into the host (Asterisk's JSON wrapper, the [res_amqp]
    connection manager, the [config_options] framework).  What the host
    computes is taken as a parameter ([Host], [world]); the control flow the
    module relies on is written out next to the function that uses it. *)

From Stdlib Require Import String Ascii ZArith List Bool Lia.
Import ListNotations.
Set Warnings "-register-all".
Open Scope string_scope.
Open Scope Z_scope.

(** ** JSON values, as [ast_json] exposes them *)

Module Json.

(** A [struct timeval]. *)
Record timeval : Type := mkTimeval { tv_sec : Z; tv_usec : Z }.

Inductive ast_json : Type :=
| JString (s : string)
| JInteger (z : Z)
| JObject (members : list (string * ast_json)).

(** The members of an object, in insertion order. *)
Definition object := list (string * ast_json).

Fixpoint object_get (o : object) (key : string) : option ast_json :=
  match o with
  | [] => None
  | (k, v) :: rest => if String.eqb k key then Some v else object_get rest key
  end.

(** Replaces the value of an existing key in place, or appends a new
    member. *)
Fixpoint object_put (o : object) (key : string) (v : ast_json) : object :=
  match o with
  | [] => [(key, v)]
  | (k, v') :: rest =>
      if String.eqb k key then (k, v) :: rest
      else (k, v') :: object_put rest key v
  end.

Definition keys (o : object) : list string := map fst o.

Definition has_key (o : object) (key : string) : bool :=
  match object_get o key with Some _ => true | None => false end.

End Json.
Import Json.

(** ** The call-detail record handed over by the host *)

Record ast_cdr : Type := mkCdr {
  clid : string;
  src : string;
  dst : string;
  dcontext : string;
  channel : string;
  dstchannel : string;
  lastapp : string;
  lastdata : string;
  start : timeval;
  answer : timeval;
  end_ : timeval;
  duration : Z;      (* long *)
  billsec : Z;       (* long *)
  disposition : Z;
  amaflags : Z;
  accountcode : string;
  peeraccount : string;
  uniqueid : string;
  linkedid : string;
  userfield : string
}.

(** ** Host functions the module calls

    Pure helpers of the host whose bodies are not part of this module. *)

Record Host : Type := mkHost {
  (** the UTF-8 check the JSON library applies to every C string it is given *)
  utf8_check_string : string -> bool;
  (** [ast_json_timeval(tv, NULL)]: a JSON value, or NULL *)
  ast_json_timeval : timeval -> option ast_json;
  (** [ast_json_dump_string]: the encoded text, or NULL *)
  ast_json_dump_string : ast_json -> option string;
  ast_cdr_disp2str : Z -> string;
  ast_channel_amaflags2string : Z -> string;
  (** [ast_true]: nonzero when the text reads as an affirmative *)
  ast_true : string -> Z;
  ast_false : string -> Z
}.

(** ** [ast_json_pack]

    The format language of the JSON library, for the directives this module
    uses: [{] and [}] delimit an object, [s] takes a C string, [i] an [int],
    [o] a JSON value whose reference is stolen.  Blanks, [:] and [,] in the
    format are skipped.  A NULL or non-UTF-8 string, a NULL value or a
    malformed format makes the whole call return NULL. *)

(** An argument of the call as the caller wrote it: a C string, an integer
    of any width, a JSON value. *)
Inductive pack_arg : Type :=
| ArgString (s : string)
| ArgInt (z : Z)
| ArgJson (j : option ast_json).

(** What the [i] directive reads from an integer argument: a C [int], hence
    the low 32 bits of a wider argument, as a signed number. *)
Definition c_int (z : Z) : Z := (z + 2 ^ 31) mod 2 ^ 32 - 2 ^ 31.

Arguments c_int : simpl never.

Definition pack_skipped (c : ascii) : bool :=
  (Ascii.eqb c " " || Ascii.eqb c "009" || Ascii.eqb c "010"
   || Ascii.eqb c "," || Ascii.eqb c ":")%char.

Fixpoint pack_tokens (fmt : string) : list ascii :=
  match fmt with
  | EmptyString => []
  | String c rest =>
      if pack_skipped c then pack_tokens rest else c :: pack_tokens rest
  end.

Section Pack.
Variable H : Host.

Definition pack_value (t : ascii) (args : list pack_arg)
  : option (ast_json * list pack_arg) :=
  match args with
  | ArgString s :: rest =>
      if (Ascii.eqb t "s")%char && utf8_check_string H s
      then Some (JString s, rest) else None
  | ArgInt z :: rest =>
      if (Ascii.eqb t "i")%char then Some (JInteger (c_int z), rest) else None
  | ArgJson (Some j) :: rest =>
      if (Ascii.eqb t "o")%char then Some (j, rest) else None
  | _ => None
  end.

Fixpoint pack_members (toks : list ascii) (args : list pack_arg)
         (acc : object) : option object :=
  match toks with
  | [c] => if (Ascii.eqb c "}")%char then Some acc else None
  | k :: t :: rest =>
      if (Ascii.eqb k "s")%char then
        match args with
        | ArgString key :: args1 =>
            if utf8_check_string H key then
              match pack_value t args1 with
              | Some (v, args2) =>
                  pack_members rest args2 (object_put acc key v)
              | None => None
              end
            else None
        | _ => None
        end
      else None
  | [] => None
  end.

Definition ast_json_pack (fmt : string) (args : list pack_arg)
  : option ast_json :=
  match pack_tokens fmt with
  | c :: rest =>
      if (Ascii.eqb c "{")%char then
        match pack_members rest args [] with
        | Some o => Some (JObject o)
        | None => None
        end
      else None
  | [] => None
  end.

(** [ast_json_string_create]: NULL when the text is not valid UTF-8. *)
Definition ast_json_string_create (s : string) : option ast_json :=
  if utf8_check_string H s then Some (JString s) else None.

(** [ast_json_object_set(object, key, value)]: 0 and the member set, or -1
    and the object untouched when the object is not an object or the value
    is NULL. *)
Definition ast_json_object_set (j : ast_json) (key : string)
           (v : option ast_json) : Z * ast_json :=
  match j, v with
  | JObject o, Some v' =>
      if utf8_check_string H key then (0, JObject (object_put o key v'))
      else (-1, j)
  | _, _ => (-1, j)
  end.

End Pack.

(** ** Configuration objects *)

(** A connection object of [res_amqp], known by its identity. *)
Definition ast_amqp_connection := nat.

(** [struct cdr_amqp_global_conf]; a NULL [amqp] is [None]. *)
Record cdr_amqp_global_conf : Type := mkGlobal {
  connection : string;
  queue : string;
  exchange : string;
  loguniqueid : Z;
  loguserfield : Z;
  amqp : option ast_amqp_connection
}.

(** [struct cdr_amqp_conf]; a NULL [global] is [None]. *)
Record cdr_amqp_conf : Type := mkConf {
  global : option cdr_amqp_global_conf
}.

(** ** What the module does to its surroundings *)

Record amqp_basic_properties : Type := mkProps {
  _flags : Z;
  delivery_mode : Z;
  content_type : string
}.

(** The arguments of one [ast_amqp_basic_publish] call. *)
Record publish_call : Type := mkPublish {
  p_cxn : option ast_amqp_connection;
  p_exchange : string;
  p_routing_key : string;
  p_mandatory : Z;
  p_immediate : Z;
  p_props : amqp_basic_properties;
  p_body : string
}.

Inductive log_level : Type := LOG_NOTICE | LOG_WARNING | LOG_ERROR.

(** What a call leaves behind, in order: log lines (the text without its
    line end), calls into the JSON library, into [res_amqp]. *)
Inductive event : Type :=
| EvLog (level : log_level) (msg : string)
| EvJsonPack (result : option ast_json)
| EvJsonDump (doc : ast_json)
| EvGetConnection (name : string)
| EvPublish (call : publish_call).

(** How [cdr_amqp.conf] loads: not there or not parsable, not modified since
    the last load, or the variables of its [global] category in file order. *)
Inductive config_status : Type :=
| CONFIG_STATUS_FILEINVALID
| CONFIG_STATUS_FILEUNCHANGED
| CONFIG_LOADED (vars : list (string * string)).

(** The surroundings at the time of one call into the module. *)
Record world : Type := mkWorld {
  (** whether object allocations succeed *)
  alloc_ok : bool;
  (** what [ast_config_load] finds *)
  conf_file_status : config_status;
  (** [ast_amqp_get_connection]: the connection of that name, or NULL *)
  ast_amqp_get_connection : string -> option ast_amqp_connection;
  (** what [ast_amqp_basic_publish] returns for a call *)
  ast_amqp_basic_publish : publish_call -> Z;
  aco_info_init : Z;
  ast_cdr_register : Z;
  ast_cdr_unregister : Z
}.

(** A C function either returns or reads through a NULL pointer. *)
Inductive outcome : Type :=
| Returned (r : Z)
| NullDereference.

(** ** Option registry of the configuration framework *)

Inductive aco_option_type : Type := OPT_BOOL_T | OPT_STRINGFIELD_T.

(** The field an option writes ([FLDSET] / [STRFLDSET]). *)
Inductive conf_field : Type :=
| fld_loguniqueid | fld_loguserfield
| fld_connection | fld_queue | fld_exchange.

Record aco_option : Type := mkOption {
  opt_name : string;
  opt_default : string;
  opt_type : aco_option_type;
  opt_flags : Z;
  opt_field : conf_field
}.

Definition set_int_field (f : conf_field) (v : Z) (g : cdr_amqp_global_conf)
  : option cdr_amqp_global_conf :=
  match f with
  | fld_loguniqueid =>
      Some (mkGlobal (connection g) (queue g) (exchange g) v (loguserfield g) (amqp g))
  | fld_loguserfield =>
      Some (mkGlobal (connection g) (queue g) (exchange g) (loguniqueid g) v (amqp g))
  | _ => None
  end.

Definition set_string_field (f : conf_field) (v : string)
           (g : cdr_amqp_global_conf) : option cdr_amqp_global_conf :=
  match f with
  | fld_connection =>
      Some (mkGlobal v (queue g) (exchange g) (loguniqueid g) (loguserfield g) (amqp g))
  | fld_queue =>
      Some (mkGlobal (connection g) v (exchange g) (loguniqueid g) (loguserfield g) (amqp g))
  | fld_exchange =>
      Some (mkGlobal (connection g) (queue g) v (loguniqueid g) (loguserfield g) (amqp g))
  | _ => None
  end.

Definition set_amqp (a : option ast_amqp_connection) (g : cdr_amqp_global_conf)
  : cdr_amqp_global_conf :=
  mkGlobal (connection g) (queue g) (exchange g) (loguniqueid g) (loguserfield g) a.

(** [strcasecmp(a, b) == 0], the comparison of an [ACO_EXACT] option name. *)
Definition ascii_lower (c : ascii) : ascii :=
  let n := nat_of_ascii c in
  if (Nat.leb 65 n && Nat.leb n 90)%bool then ascii_of_nat (n + 32) else c.

Fixpoint string_lower (s : string) : string :=
  match s with
  | EmptyString => EmptyString
  | String c rest => String (ascii_lower c) (string_lower rest)
  end.

Definition strcaseeq (a b : string) : bool :=
  String.eqb (string_lower a) (string_lower b).

Fixpoint aco_option_find (opts : list aco_option) (name : string)
  : option aco_option :=
  match opts with
  | [] => None
  | o :: rest =>
      if strcaseeq (opt_name o) name then Some o else aco_option_find rest name
  end.

(** ** The module *)

(** [cfg_info] with its registered options, the global object [confs], and
    whether the CDR backend is registered with the host. *)
Record module_state : Type := mkState {
  cfg_options : list aco_option;
  confs : option cdr_amqp_conf;
  cdr_registered : bool
}.

Definition unloaded : module_state := mkState [] None false.

Inductive aco_process_status : Type :=
| ACO_PROCESS_OK | ACO_PROCESS_UNCHANGED | ACO_PROCESS_ERROR.

Definition AST_MODULE_LOAD_SUCCESS : Z := 0.
Definition AST_MODULE_LOAD_DECLINE : Z := 1.
Definition AST_MODULE_LOAD_FAILURE : Z := -1.

(** From the AMQP client library's framing header. *)
Definition AMQP_BASIC_CONTENT_TYPE_FLAG : Z := Z.shiftl 1 15.
Definition AMQP_BASIC_DELIVERY_MODE_FLAG : Z := Z.shiftl 1 12.

Section Module.
Variable H : Host.

(** The default handler of an option type: a boolean goes through
    [ast_true] (or [ast_false] when the option's flag is 0), a string field
    takes the text. *)
Definition aco_handle (o : aco_option) (value : string)
           (g : cdr_amqp_global_conf) : option cdr_amqp_global_conf :=
  match opt_type o with
  | OPT_BOOL_T =>
      set_int_field (opt_field o)
        (if Z.eqb (opt_flags o) 0 then ast_false H value else ast_true H value) g
  | OPT_STRINGFIELD_T => set_string_field (opt_field o) value g
  end.

(** [aco_set_defaults]: runs the handler of every option that has a
    non-empty default. *)
Fixpoint aco_set_defaults (opts : list aco_option) (g : cdr_amqp_global_conf)
  : Z * cdr_amqp_global_conf :=
  match opts with
  | [] => (0, g)
  | o :: rest =>
      if String.eqb (opt_default o) "" then aco_set_defaults rest g
      else match aco_handle o (opt_default o) g with
           | Some g' => aco_set_defaults rest g'
           | None => (-1, g)
           end
  end.

Definition conf_global_create (w : world) (opts : list aco_option)
  : option cdr_amqp_global_conf :=
  if alloc_ok w then
    (* zeroed object, string fields initialised to the empty string *)
    let global := mkGlobal "" "" "" 0 0 None in
    Some (snd (aco_set_defaults opts global))
  else None.

Definition conf_alloc (w : world) (opts : list aco_option)
  : option cdr_amqp_conf :=
  if alloc_ok w then
    match conf_global_create w opts with
    | Some g => Some (mkConf (Some g))
    | None => None
    end
  else None.

(** [setup_amqp], the pre-apply callback, on the pending configuration. *)
Definition setup_amqp (w : world) (pending : option cdr_amqp_conf)
  : Z * option cdr_amqp_conf * list event :=
  match pending with
  | None => (0, pending, [])
  | Some conf =>
      match global conf with
      | None => (-1, pending, [EvLog LOG_ERROR "Invalid cdr_amqp.conf"])
      | Some g =>
          (* Refresh the AMQP connection *)
          let a := ast_amqp_get_connection w (connection g) in
          let conf' := Some (mkConf (Some (set_amqp a g))) in
          match a with
          | None =>
              (-1, conf',
               [EvGetConnection (connection g);
                EvLog LOG_ERROR ("Could not get AMQP connection " ++ connection g)])
          | Some _ => (0, conf', [EvGetConnection (connection g)])
          end
      end
  end.

(** The variables of the file, applied in order to the pending object. *)
Fixpoint aco_process_vars (opts : list aco_option)
         (vars : list (string * string)) (g : cdr_amqp_global_conf)
  : option cdr_amqp_global_conf :=
  match vars with
  | [] => Some g
  | (name, value) :: rest =>
      match aco_option_find opts name with
      | Some o =>
          match aco_handle o value g with
          | Some g' => aco_process_vars opts rest g'
          | None => None
          end
      | None => None
      end
  end.

(** [aco_process_config]: allocate the pending object with [conf_alloc],
    fill it from the file, run the pre-apply callback, and only then
    replace the global object. *)
Definition aco_process_config (w : world) (st : module_state) (reload : bool)
  : aco_process_status * module_state * list event :=
  match conf_alloc w (cfg_options st) with
  | None => (ACO_PROCESS_ERROR, st, [])
  | Some pending =>
      match conf_file_status w with
      | CONFIG_STATUS_FILEINVALID => (ACO_PROCESS_ERROR, st, [])
      | CONFIG_STATUS_FILEUNCHANGED => (ACO_PROCESS_UNCHANGED, st, [])
      | CONFIG_LOADED vars =>
          match global pending with
          | None => (ACO_PROCESS_ERROR, st, [])
          | Some g =>
              match aco_process_vars (cfg_options st) vars g with
              | None => (ACO_PROCESS_ERROR, st, [])
              | Some g' =>
                  match setup_amqp w (Some (mkConf (Some g'))) with
                  | (0, Some applied, evs) =>
                      (ACO_PROCESS_OK,
                       mkState (cfg_options st) (Some applied) (cdr_registered st),
                       evs)
                  | (_, _, evs) => (ACO_PROCESS_ERROR, st, evs)
                  end
              end
          end
      end
  end.

Definition load_config (w : world) (st : module_state) (reload : bool)
  : Z * module_state * list event :=
  match aco_process_config w st reload with
  | (ACO_PROCESS_ERROR, st', evs) => (-1, st', evs)
  | (_, st', evs) =>
      match confs st' with
      | Some conf =>
          match global conf with
          | Some _ => (0, st', evs)
          | None =>
              (-1, st',
               (evs ++ [EvLog LOG_ERROR "Error obtaining config from cdr_amqp.conf"])%list)
          end
      | None =>
          (-1, st',
           (evs ++ [EvLog LOG_ERROR "Error obtaining config from cdr_amqp.conf"])%list)
      end
  end.

Definition aco_option_register (st : module_state) (name : string)
           (default_val : string) (t : aco_option_type) (flags : Z)
           (f : conf_field) : module_state :=
  mkState (cfg_options st ++ [mkOption name default_val t flags f])%list
          (confs st) (cdr_registered st).

Definition aco_info_destroy (st : module_state) : module_state :=
  mkState [] (confs st) (cdr_registered st).

(** The five [aco_option_register] calls of [load_module]. *)
Definition register_options (st : module_state) : module_state :=
  let st := aco_option_register st "loguniqueid" "no" OPT_BOOL_T 1 fld_loguniqueid in
  let st := aco_option_register st "loguserfield" "no" OPT_BOOL_T 1 fld_loguserfield in
  let st := aco_option_register st "connection" "" OPT_STRINGFIELD_T 0 fld_connection in
  let st := aco_option_register st "queue" "asterisk_cdr" OPT_STRINGFIELD_T 0 fld_queue in
  let st := aco_option_register st "exchange" "" OPT_STRINGFIELD_T 0 fld_exchange in
  st.

Definition load_module (w : world) (st : module_state)
  : Z * module_state * list event :=
  if negb (Z.eqb (aco_info_init w) 0) then
    (-1, aco_info_destroy st, [EvLog LOG_ERROR "Failed to initialize config"])
  else
    let st := register_options st in
    match load_config w st false with
    | (r, st, evs) =>
        if negb (Z.eqb r 0) then
          (AST_MODULE_LOAD_DECLINE, st,
           (evs ++ [EvLog LOG_WARNING "Configuration failed to load"])%list)
        else if negb (Z.eqb (ast_cdr_register w) 0) then
          (AST_MODULE_LOAD_FAILURE, st,
           (evs ++ [EvLog LOG_ERROR "Could not register CDR backend"])%list)
        else
          (AST_MODULE_LOAD_SUCCESS,
           mkState (cfg_options st) (confs st) true,
           (evs ++ [EvLog LOG_NOTICE "CDR AMQP logging enabled"])%list)
    end.

Definition unload_module (w : world) (st : module_state)
  : Z * module_state :=
  let st := aco_info_destroy st in
  let st := mkState (cfg_options st) None (cdr_registered st) in
  if negb (Z.eqb (ast_cdr_unregister w) 0) then (-1, st)
  else (0, mkState (cfg_options st) (confs st) false).

Definition reload_module (w : world) (st : module_state)
  : Z * module_state * list event :=
  load_config w st true.

(** The properties every message is published with. *)
Definition props : amqp_basic_properties :=
  mkProps (Z.lor AMQP_BASIC_DELIVERY_MODE_FLAG AMQP_BASIC_CONTENT_TYPE_FLAG)
          2 (* persistent delivery mode *)
          "application/json".

(** The [ast_json_pack] call of [amqp_cdr_log]: the format, as the
    adjacent literals concatenate, and the arguments in order. *)
Definition cdr_pack_format : string :=
  "{"
  (* clid, src, dst, dcontext *)
  ++ "s: s, s: s, s: s, s: s,"
  (* channel, dstchannel, lastapp, lastdata *)
  ++ "s: s, s: s, s: s, s: s,"
  (* start, answer, end, duration *)
  ++ "s: o, s: o, s: o, s: i"
  (* billsec, disposition, accountcode, amaflags *)
  ++ "s: i, s: s, s: s, s: s"
  (* peeraccount, linkedid *)
  ++ "s: s, s: s }".

Definition cdr_pack_args (cdr : ast_cdr) : list pack_arg :=
  [ ArgString "clid"; ArgString (clid cdr);
    ArgString "src"; ArgString (src cdr);
    ArgString "dst"; ArgString (dst cdr);
    ArgString "dcontext"; ArgString (dcontext cdr);

    ArgString "channel"; ArgString (channel cdr);
    ArgString "dstchannel"; ArgString (dstchannel cdr);
    ArgString "lastapp"; ArgString (lastapp cdr);
    ArgString "lastdata"; ArgString (lastdata cdr);

    ArgString "start"; ArgJson (ast_json_timeval H (start cdr));
    ArgString "answer"; ArgJson (ast_json_timeval H (answer cdr));
    ArgString "end"; ArgJson (ast_json_timeval H (end_ cdr));
    ArgString "durationsec"; ArgInt (duration cdr);

    ArgString "billsec"; ArgInt (billsec cdr);
    ArgString "disposition"; ArgString (ast_cdr_disp2str H (disposition cdr));
    ArgString "accountcode"; ArgString (accountcode cdr);
    ArgString "amaflags";
      ArgString (ast_channel_amaflags2string H (amaflags cdr));

    ArgString "peeraccount"; ArgString (peeraccount cdr);
    ArgString "linkedid"; ArgString (linkedid cdr) ].

(** The optional fields, set on the packed object; the result of
    [ast_json_object_set] is not looked at. *)
Definition set_optional_fields (g : cdr_amqp_global_conf) (cdr : ast_cdr)
           (json : ast_json) : ast_json :=
  let json :=
    if negb (Z.eqb (loguniqueid g) 0) then
      snd (ast_json_object_set H json "uniqueid"
             (ast_json_string_create H (uniqueid cdr)))
    else json in
  let json :=
    if negb (Z.eqb (loguserfield g) 0) then
      snd (ast_json_object_set H json "userfield"
             (ast_json_string_create H (userfield cdr)))
    else json in
  json.

(** [amqp_cdr_log].  [conf] is the reference taken from [confs] on entry;
    [ast_assert] does not leave the function, so the first use of [conf]
    is the read of [conf->global->loguniqueid] after the pack. *)
Definition amqp_cdr_log (w : world) (st : module_state) (cdr : ast_cdr)
  : outcome * list event :=
  let conf := confs st in
  let json := ast_json_pack H cdr_pack_format (cdr_pack_args cdr) in
  match json with
  | None => (Returned (-1), [EvJsonPack json])
  | Some packed =>
      match conf with
      | None => (NullDereference, [EvJsonPack json])
      | Some conf =>
          match global conf with
          | None => (NullDereference, [EvJsonPack json])
          | Some g =>
              (* Set optional fields *)
              let doc := set_optional_fields g cdr packed in
              (* Dump the JSON to a string for publication *)
              match ast_json_dump_string H doc with
              | None =>
                  (Returned (-1),
                   [EvJsonPack json; EvJsonDump doc;
                    EvLog LOG_ERROR "Failed to build string from JSON"])
              | Some str =>
                  let call :=
                    mkPublish (amqp g) (exchange g) (queue g)
                              0 (* mandatory; don't return unsendable messages *)
                              0 (* immediate; allow messages to be queued *)
                              props str in
                  let res := ast_amqp_basic_publish w call in
                  if negb (Z.eqb res 0) then
                    (Returned (-1),
                     [EvJsonPack json; EvJsonDump doc; EvPublish call;
                      EvLog LOG_ERROR "Error publishing CDR to AMQP"])
                  else
                    (Returned 0,
                     [EvJsonPack json; EvJsonDump doc; EvPublish call])
              end
          end
      end
  end.

End Module.

(** ** A host to evaluate the module on

    One instance of [Host], used where a statement is run on concrete
    records: UTF-8 well-formedness as the JSON library checks it, the host's
    names for dispositions and AMA flags, its reading of boolean option
    texts, timestamps rendered as their seconds and a compact printer. *)

Module TestHost.

Definition byte (c : ascii) : Z := Z.of_nat (nat_of_ascii c).

Definition utf8_check_first (b : Z) : nat :=
  if b <? 128 then 1%nat
  else if b <? 192 then 0%nat            (* continuation byte *)
  else if b <? 194 then 0%nat            (* overlong two-byte lead *)
  else if b <? 224 then 2%nat
  else if b <? 240 then 3%nat
  else if b <? 245 then 4%nat
  else 0%nat.

(** The [n] continuation bytes after a lead, folded into the code point. *)
Fixpoint utf8_continuation (n : nat) (value : Z) (s : string)
  : option (Z * string) :=
  match n with
  | O => Some (value, s)
  | S n' =>
      match s with
      | EmptyString => None
      | String c rest =>
          let u := byte c in
          if (u <? 128) || (191 <? u) then None
          else utf8_continuation n' (Z.shiftl value 6 + Z.land u 63) rest
      end
  end.

Definition utf8_check_full (count : nat) (lead : Z) (rest : string)
  : option string :=
  let value :=
    match count with
    | 2%nat => Z.land lead 31
    | 3%nat => Z.land lead 15
    | _ => Z.land lead 7
    end in
  match utf8_continuation (count - 1) value rest with
  | None => None
  | Some (v, rest') =>
      if 1114111 <? v then None
      else if (55296 <=? v) && (v <=? 57343) then None
      else if (Nat.eqb count 2 && (v <? 128))
              || (Nat.eqb count 3 && (v <? 2048))
              || (Nat.eqb count 4 && (v <? 65536)) then None
      else Some rest'
  end.

Fixpoint utf8_check_fuel (fuel : nat) (s : string) : bool :=
  match s with
  | EmptyString => true
  | String c rest =>
      match fuel with
      | O => false
      | S fuel' =>
          match utf8_check_first (byte c) with
          | O => false
          | S O => utf8_check_fuel fuel' rest
          | count =>
              match utf8_check_full count (byte c) rest with
              | Some rest' => utf8_check_fuel fuel' rest'
              | None => false
              end
          end
      end
  end.

Definition utf8_check (s : string) : bool :=
  utf8_check_fuel (String.length s) s.

Definition truth (words : list string) (s : string) : Z :=
  if existsb (strcaseeq s) words then -1 else 0.

Definition disp2str (d : Z) : string :=
  if (d =? 0) || (d =? 1) then "NO ANSWER"
  else if d =? 2 then "FAILED"
  else if d =? 4 then "BUSY"
  else if d =? 8 then "ANSWERED"
  else if d =? 16 then "CONGESTION"
  else "UNKNOWN".

Definition amaflags2string (f : Z) : string :=
  if f =? 1 then "OMIT"
  else if f =? 2 then "BILLING"
  else if f =? 3 then "DOCUMENTATION"
  else "Unknown".

Definition dump_member (kv : string * ast_json) : string :=
  fst kv ++ "=" ++
  match snd kv with
  | JString s => s
  | JInteger z => if z <? 0 then "-" else "+"
  | JObject _ => "{}"
  end.

Definition dump (j : ast_json) : option string :=
  match j with
  | JObject o => Some ("{" ++ String.concat ";" (map dump_member o) ++ "}")
  | _ => None
  end.

Definition host : Host :=
  mkHost utf8_check
         (fun tv => Some (JObject [("sec", JInteger (tv_sec tv));
                                   ("usec", JInteger (tv_usec tv))]))
         dump
         disp2str
         amaflags2string
         (truth ["yes"; "true"; "y"; "t"; "1"; "on"])
         (truth ["no"; "false"; "n"; "f"; "0"; "off"]).

(** A broker that accepts every message and hands out connection [a] for
    the name [bunny] only; [cdr_amqp.conf] is given by [file]. *)
Definition world_handing (a : ast_amqp_connection) (file : config_status)
  : world :=
  mkWorld true file
          (fun name => if String.eqb name "bunny" then Some a else None)
          (fun _ => 0)
          0 0 0.

Definition world_with (file : config_status) : world :=
  world_handing 7%nat file.

Definition alice : ast_cdr :=
  mkCdr (String "034" ("Alice" ++ String "034" " <100>"))
        "100" "200" "default"
        "SIP/100-00000001" "SIP/200-00000002" "Dial" "SIP/200"
        (mkTimeval 1000 0) (mkTimeval 1005 0) (mkTimeval 1030 0)
        30 25 8 3 "acct" "peer" "1432.1" "1432.1" "note".

(** The configuration [connection=bunny, loguniqueid=yes, loguserfield=yes]
    produces, and the module holding it. *)
Definition both_flags : cdr_amqp_global_conf :=
  mkGlobal "bunny" "asterisk_cdr" "" (-1) (-1) (Some 7%nat).

(** A configuration whose connection is NULL. *)
Definition no_handle : cdr_amqp_global_conf :=
  mkGlobal "bunny" "asterisk_cdr" "" 0 0 None.

Definition holding (g : cdr_amqp_global_conf) : module_state :=
  mkState (cfg_options (register_options unloaded))
          (Some (mkConf (Some g))) true.

Definition quiet : world := world_with CONFIG_STATUS_FILEUNCHANGED.

(** Surroundings in which the host refuses to unregister the backend, as it
    does while calls are still active. *)
Definition busy : world :=
  mkWorld true CONFIG_STATUS_FILEUNCHANGED (fun _ => None) (fun _ => 0)
          0 0 (-1).

(** [alice] with a user field that is the single byte 0xFF. *)
Definition mallory : ast_cdr :=
  mkCdr (clid alice) (src alice) (dst alice) (dcontext alice)
        (channel alice) (dstchannel alice) (lastapp alice) (lastdata alice)
        (start alice) (answer alice) (end_ alice)
        (duration alice) (billsec alice) (disposition alice) (amaflags alice)
        (accountcode alice) (peeraccount alice)
        (uniqueid alice) (linkedid alice) (String "255" EmptyString).

(** [alice] after a call of 2^32 + 30 seconds, 2^31 of them billable. *)
Definition marathon : ast_cdr :=
  mkCdr (clid alice) (src alice) (dst alice) (dcontext alice)
        (channel alice) (dstchannel alice) (lastapp alice) (lastdata alice)
        (start alice) (answer alice) (end_ alice)
        (2 ^ 32 + 30) (2 ^ 31) (disposition alice) (amaflags alice)
        (accountcode alice) (peeraccount alice)
        (uniqueid alice) (linkedid alice) (userfield alice).

End TestHost.

(** ** Notions the statements use *)

(** [ao2_global_obj_ref(confs)]: the configuration a reader gets. *)
Definition ao2_global_obj_ref (st : module_state) : option cdr_amqp_conf :=
  confs st.

(** The installed configuration, if any, has its [global] part and a
    connection. *)
Definition handle_present (st : module_state) : Prop :=
  forall conf, confs st = Some conf ->
    exists g a, global conf = Some g /\ amqp g = Some a.

(** The states the module goes through, from the unloaded module, under any
    sequence of loads, reloads and unloads in any surroundings. *)
Inductive reachable (H : Host) : module_state -> Prop :=
| reach_unloaded : reachable H unloaded
| reach_load (w : world) (st : module_state) :
    reachable H st -> reachable H (snd (fst (load_module H w st)))
| reach_reload (w : world) (st : module_state) :
    reachable H st -> reachable H (snd (fst (reload_module H w st)))
| reach_unload (w : world) (st : module_state) :
    reachable H st -> reachable H (snd (unload_module w st)).

Definition is_publish (e : event) : bool :=
  match e with EvPublish _ => true | _ => false end.

(** Number of [ast_amqp_basic_publish] calls in a trace. *)
Definition publishes (evs : list event) : nat :=
  List.length (filter is_publish evs).

(** The members of the object [amqp_cdr_log] packs, given the three
    timestamp values. *)
Definition cdr_members (H : Host) (cdr : ast_cdr) (s a e : ast_json) : object :=
  [ ("clid", JString (clid cdr)); ("src", JString (src cdr));
    ("dst", JString (dst cdr)); ("dcontext", JString (dcontext cdr));
    ("channel", JString (channel cdr));
    ("dstchannel", JString (dstchannel cdr));
    ("lastapp", JString (lastapp cdr)); ("lastdata", JString (lastdata cdr));
    ("start", s); ("answer", a); ("end", e);
    ("durationsec", JInteger (c_int (duration cdr)));
    ("billsec", JInteger (c_int (billsec cdr)));
    ("disposition", JString (ast_cdr_disp2str H (disposition cdr)));
    ("accountcode", JString (accountcode cdr));
    ("amaflags", JString (ast_channel_amaflags2string H (amaflags cdr)));
    ("peeraccount", JString (peeraccount cdr));
    ("linkedid", JString (linkedid cdr)) ].

(** The texts the pack call hands to the JSON library as values. *)
Definition cdr_texts (H : Host) (cdr : ast_cdr) : list string :=
  [ clid cdr; src cdr; dst cdr; dcontext cdr; channel cdr; dstchannel cdr;
    lastapp cdr; lastdata cdr; ast_cdr_disp2str H (disposition cdr);
    accountcode cdr; ast_channel_amaflags2string H (amaflags cdr);
    peeraccount cdr; linkedid cdr ].

Definition required_keys : list string :=
  [ "clid"; "src"; "dst"; "dcontext"; "channel"; "dstchannel"; "lastapp";
    "lastdata"; "start"; "answer"; "end"; "durationsec"; "billsec";
    "disposition"; "accountcode"; "amaflags"; "peeraccount"; "linkedid" ].

(** The member an optional field contributes: none when its flag is 0 or the
    JSON library turns the text down. *)
Definition optional_member (H : Host) (flag : Z) (key value : string) : object :=
  if negb (Z.eqb flag 0) && utf8_check_string H key && utf8_check_string H value
  then [(key, JString value)] else [].

(** The handler called once per entry of a list, each call in its own
    surroundings and module state; the traces in call order. *)
Definition log_all (H : Host) (calls : list (world * module_state * ast_cdr))
  : list event :=
  flat_map (fun c => snd (amqp_cdr_log H (fst (fst c)) (snd (fst c)) (snd c)))
           calls.

(** The value the file gives an option: that of the last variable bearing the
    option's name, if there is one. *)
Fixpoint explicit_value (name : string) (vars : list (string * string))
  : option string :=
  match vars with
  | [] => None
  | (n, v) :: rest =>
      match explicit_value name rest with
      | Some v' => Some v'
      | None => if strcaseeq name n then Some v else None
      end
  end.

(** The options as [load_module] registers them on the unloaded module. *)
Definition registered_options : list aco_option :=
  cfg_options (register_options unloaded).

(** The pending object before the file is read, all options at their
    defaults. *)
Definition default_global : cdr_amqp_global_conf :=
  mkGlobal EmptyString "asterisk_cdr" EmptyString 0 0 None.

Definition or_default {A : Type} (o : option A) (d : A) : A :=
  match o with Some v => v | None => d end.

Fixpoint first_publish (evs : list event) : option publish_call :=
  match evs with
  | [] => None
  | EvPublish call :: _ => Some call
  | _ :: rest => first_publish rest
  end.

(** ** The handler next to a reload, step by step

    [confs] holds a reference to a reference-counted object; the handler
    takes its own reference on entry and reads the object through it at
    several later points, while the thread that loads, reloads and unloads
    the module allocates, fills, checks and installs a pending object.  Here
    both are machines over one heap, run under an arbitrary schedule. *)

Definition addr := nat.

(** Live objects with their reference counts. *)
Definition heap := addr -> option (cdr_amqp_conf * nat).

Definition heap_set (h : heap) (x : addr) (v : option (cdr_amqp_conf * nat))
  : heap :=
  fun y => if Nat.eqb y x then v else h y.

(** [ao2_ref(obj, +1)]. *)
Definition ao2_bump (h : heap) (x : option addr) : heap :=
  match x with
  | Some a =>
      match h a with
      | Some (o, rc) => heap_set h a (Some (o, S rc))
      | None => h
      end
  | None => h
  end.

(** [ao2_cleanup]: drops one reference; the last one destroys the object. *)
Definition ao2_cleanup (h : heap) (x : option addr) : heap :=
  match x with
  | Some a =>
      match h a with
      | Some (o, S (S n)) => heap_set h a (Some (o, S n))
      | Some (o, _) => heap_set h a None
      | None => h
      end
  | None => h
  end.

(** Where the handler stands; [conf] is its local reference. *)
Inductive handler_pc : Type :=
| H_start
| H_acquired (conf : option addr)
| H_packed (conf : option addr) (json : ast_json)
| H_uniqueid (conf : option addr) (json : ast_json)
| H_userfield (conf : option addr) (json : ast_json)
| H_dumped (conf : option addr) (str : string)
| H_amqp (conf : option addr) (str : string) (a : option ast_amqp_connection)
| H_exchange (conf : option addr) (str : string)
             (a : option ast_amqp_connection) (ex : string)
| H_queue (conf : option addr) (str : string)
          (a : option ast_amqp_connection) (ex q : string)
| H_return (conf : option addr) (r : Z)
| H_done (out : outcome).

(** Where the loading thread stands; [p] is its pending object. *)
Inductive control_pc : Type :=
| C_idle
| C_allocated (p : addr)
| C_filled (p : addr)
| C_checked (p : addr)
| C_failed (p : addr)
| C_installed (p : addr).

Record system : Type := mkSystem {
  objects : heap;
  slot : option addr;                 (* the global object [confs] *)
  handler : handler_pc;
  handler_trace : list event;
  acquired : option cdr_amqp_conf;    (* what [confs] held when the handler took it *)
  control : control_pc;
  others : addr -> nat                (* references of other running handlers *)
}.

(** One move of the schedule. *)
Inductive move : Type :=
| MHandler
| MBegin (w : world) (opts : list aco_option) (p : addr)
| MFill (w : world) (opts : list aco_option)
| MSetup (w : world)
| MInstall
| MDrop
| MUnload
| MOtherAcquire
| MOtherRelease (x : addr).

(** [conf->global], read through the handler's reference: nothing when the
    object is gone, [NullDereference] when a pointer on the way is NULL. *)
Definition read_global (h : heap) (conf : option addr)
  : option (outcome + cdr_amqp_global_conf) :=
  match conf with
  | None => Some (inl NullDereference)
  | Some a =>
      match h a with
      | None => None
      | Some (o, _) =>
          match global o with
          | None => Some (inl NullDereference)
          | Some g => Some (inr g)
          end
      end
  end.

Definition content (h : heap) (x : option addr) : option cdr_amqp_conf :=
  match x with
  | Some a => match h a with Some (o, _) => Some o | None => None end
  | None => None
  end.

Definition set_handler (s : system) (h : heap) (pc : handler_pc)
           (evs : list event) : system :=
  mkSystem h (slot s) pc (handler_trace s ++ evs)%list (acquired s)
           (control s) (others s).

Definition set_control (s : system) (h : heap) (sl : option addr)
           (c : control_pc) : system :=
  mkSystem h sl (handler s) (handler_trace s) (acquired s) c (others s).

Definition set_others (s : system) (h : heap) (f : addr -> nat) : system :=
  mkSystem h (slot s) (handler s) (handler_trace s) (acquired s) (control s) f.

Section Machine.
Variable H : Host.
(** The surroundings and the record of the one handler call that is watched. *)
Variable w : world.
Variable cdr : ast_cdr.

(** [amqp_cdr_log], one access to shared state at a time. *)
Definition handler_step (s : system) : option system :=
  let h := objects s in
  match handler s with
  | H_start =>
      (* conf = ao2_global_obj_ref(confs) *)
      Some (mkSystem (ao2_bump h (slot s)) (slot s) (H_acquired (slot s))
                     (handler_trace s) (content h (slot s))
                     (control s) (others s))
  | H_acquired conf =>
      let json := ast_json_pack H cdr_pack_format (cdr_pack_args H cdr) in
      match json with
      | None => Some (set_handler s h (H_return conf (-1)) [EvJsonPack json])
      | Some j => Some (set_handler s h (H_packed conf j) [EvJsonPack json])
      end
  | H_packed conf json =>
      (* if (conf->global->loguniqueid) *)
      match read_global h conf with
      | None => None
      | Some (inl out) => Some (set_handler s h (H_done out) [])
      | Some (inr g) =>
          let json :=
            if negb (Z.eqb (loguniqueid g) 0) then
              snd (ast_json_object_set H json "uniqueid"
                     (ast_json_string_create H (uniqueid cdr)))
            else json in
          Some (set_handler s h (H_uniqueid conf json) [])
      end
  | H_uniqueid conf json =>
      (* if (conf->global->loguserfield) *)
      match read_global h conf with
      | None => None
      | Some (inl out) => Some (set_handler s h (H_done out) [])
      | Some (inr g) =>
          let json :=
            if negb (Z.eqb (loguserfield g) 0) then
              snd (ast_json_object_set H json "userfield"
                     (ast_json_string_create H (userfield cdr)))
            else json in
          Some (set_handler s h (H_userfield conf json) [])
      end
  | H_userfield conf json =>
      match ast_json_dump_string H json with
      | None =>
          Some (set_handler s h (H_return conf (-1))
                  [EvJsonDump json;
                   EvLog LOG_ERROR "Failed to build string from JSON"])
      | Some str => Some (set_handler s h (H_dumped conf str) [EvJsonDump json])
      end
  | H_dumped conf str =>
      (* conf->global->amqp *)
      match read_global h conf with
      | None => None
      | Some (inl out) => Some (set_handler s h (H_done out) [])
      | Some (inr g) => Some (set_handler s h (H_amqp conf str (amqp g)) [])
      end
  | H_amqp conf str a =>
      (* conf->global->exchange *)
      match read_global h conf with
      | None => None
      | Some (inl out) => Some (set_handler s h (H_done out) [])
      | Some (inr g) =>
          Some (set_handler s h (H_exchange conf str a (exchange g)) [])
      end
  | H_exchange conf str a ex =>
      (* conf->global->queue *)
      match read_global h conf with
      | None => None
      | Some (inl out) => Some (set_handler s h (H_done out) [])
      | Some (inr g) =>
          Some (set_handler s h (H_queue conf str a ex (queue g)) [])
      end
  | H_queue conf str a ex q =>
      let call := mkPublish a ex q 0 0 props str in
      let res := ast_amqp_basic_publish w call in
      if negb (Z.eqb res 0) then
        Some (set_handler s h (H_return conf (-1))
                [EvPublish call; EvLog LOG_ERROR "Error publishing CDR to AMQP"])
      else Some (set_handler s h (H_return conf 0) [EvPublish call])
  | H_return conf r =>
      (* the handler's reference goes as the function leaves *)
      Some (set_handler s (ao2_cleanup h conf) (H_done (Returned r)) [])
  | H_done _ => None
  end.

(** The loading thread: [aco_process_config] in its stages, and the release
    of [confs] by [unload_module]; other handlers taking and dropping their
    references. *)
Definition other_step (m : move) (s : system) : option system :=
  let h := objects s in
  match m, control s with
  | MBegin w' opts p, C_idle =>
      match h p, conf_alloc H w' opts with
      | None, Some o =>
          Some (set_control s (heap_set h p (Some (o, 1%nat))) (slot s)
                            (C_allocated p))
      | _, _ => None
      end
  | MFill w' opts, C_allocated p =>
      match h p with
      | Some (o, rc) =>
          match conf_file_status w', global o with
          | CONFIG_LOADED vars, Some g =>
              match aco_process_vars H opts vars g with
              | Some g' =>
                  Some (set_control s
                          (heap_set h p (Some (mkConf (Some g'), rc)))
                          (slot s) (C_filled p))
              | None => Some (set_control s h (slot s) (C_failed p))
              end
          | _, _ => Some (set_control s h (slot s) (C_failed p))
          end
      | None => None
      end
  | MSetup w', C_filled p =>
      match h p with
      | Some (o, rc) =>
          match setup_amqp w' (Some o) with
          | (r, Some o', _) =>
              Some (set_control s (heap_set h p (Some (o', rc))) (slot s)
                                (if Z.eqb r 0 then C_checked p else C_failed p))
          | (_, None, _) => None
          end
      | None => None
      end
  | MInstall, C_checked p =>
      (* ao2_global_obj_replace_unref(confs, pending) *)
      Some (set_control s (ao2_cleanup (ao2_bump h (Some p)) (slot s))
                        (Some p) (C_installed p))
  | MDrop, C_failed p =>
      Some (set_control s (ao2_cleanup h (Some p)) (slot s) C_idle)
  | MDrop, C_installed p =>
      Some (set_control s (ao2_cleanup h (Some p)) (slot s) C_idle)
  | MUnload, C_idle =>
      (* ao2_global_obj_release(confs) *)
      Some (set_control s (ao2_cleanup h (slot s)) None C_idle)
  | MOtherAcquire, _ =>
      match slot s with
      | Some a =>
          Some (set_others s (ao2_bump h (Some a))
                  (fun y => if Nat.eqb y a then S (others s y) else others s y))
      | None => Some s
      end
  | MOtherRelease x, _ =>
      match others s x with
      | S n =>
          Some (set_others s (ao2_cleanup h (Some x))
                  (fun y => if Nat.eqb y x then n else others s y))
      | O => None
      end
  | _, _ => None
  end.

Definition step (m : move) (s : system) : option system :=
  match m with
  | MHandler => handler_step s
  | _ => other_step m s
  end.

(** A schedule, run as far as every move is possible. *)
Fixpoint run (schedule : list move) (s : system) : option system :=
  match schedule with
  | [] => Some s
  | m :: rest =>
      match step m s with
      | Some s' => run rest s'
      | None => None
      end
  end.

End Machine.

(** The reference the handler holds, while it holds one. *)
Definition handler_conf (pc : handler_pc) : option (option addr) :=
  match pc with
  | H_start | H_done _ => None
  | H_acquired c | H_packed c _ | H_uniqueid c _ | H_userfield c _
  | H_dumped c _ | H_amqp c _ _ | H_exchange c _ _ _ | H_queue c _ _ _ _
  | H_return c _ => Some c
  end.

Definition pending (c : control_pc) : option addr :=
  match c with
  | C_idle => None
  | C_allocated p | C_filled p | C_checked p | C_failed p | C_installed p =>
      Some p
  end.

(** The pending object while it is not yet installed. *)
Definition unpublished (c : control_pc) : option addr :=
  match c with
  | C_allocated p | C_filled p | C_checked p | C_failed p => Some p
  | C_idle | C_installed _ => None
  end.

Definition refers (o : option addr) (x : addr) : nat :=
  match o with
  | Some a => if Nat.eqb a x then 1%nat else 0%nat
  | None => 0%nat
  end.

Definition handler_refers (pc : handler_pc) (x : addr) : nat :=
  match handler_conf pc with
  | Some c => refers c x
  | None => 0%nat
  end.

(** How many references to [x] are held: by [confs], by the handler, by the
    loading thread, by other handlers. *)
Definition holders (s : system) (x : addr) : nat :=
  (refers (slot s) x + handler_refers (handler s) x
   + refers (pending (control s)) x + others s x)%nat.

Definition rc_at (h : heap) (x : addr) : nat :=
  match h x with Some (_, rc) => rc | None => 0%nat end.

(** Every reference held is counted, an object not yet installed is known
    to the loading thread only, and the handler's reference still leads to
    what it led to when it was taken. *)
Record consistent (s : system) : Prop := mkConsistent {
  held_counted : forall x, (holders s x <= rc_at (objects s) x)%nat;
  pending_private :
    forall p, unpublished (control s) = Some p -> holders s p = 1%nat;
  handler_view :
    forall c, handler_conf (handler s) = Some c ->
              content (objects s) c = acquired s
}.

(** How far the handler has come, in terms of [amqp_cdr_log] run on the
    configuration it acquired. *)
Definition progress (H : Host) (w : world) (cdr : ast_cdr) (s : system) : Prop :=
  let packed := ast_json_pack H cdr_pack_format (cdr_pack_args H cdr) in
  let whole := amqp_cdr_log H w (mkState [] (acquired s) false) cdr in
  let dumped (str : string) (j : ast_json) (g : cdr_amqp_global_conf) :=
    packed = Some j /\ acquired s = Some (mkConf (Some g)) /\
    ast_json_dump_string H (set_optional_fields H g cdr j) = Some str /\
    handler_trace s
    = [EvJsonPack packed; EvJsonDump (set_optional_fields H g cdr j)] in
  match handler s with
  | H_start | H_acquired _ => handler_trace s = []
  | H_packed _ j => packed = Some j /\ handler_trace s = [EvJsonPack packed]
  | H_uniqueid _ j' =>
      exists j g,
        packed = Some j /\ acquired s = Some (mkConf (Some g)) /\
        handler_trace s = [EvJsonPack packed] /\
        j' = (if negb (Z.eqb (loguniqueid g) 0) then
                snd (ast_json_object_set H j "uniqueid"
                       (ast_json_string_create H (uniqueid cdr)))
              else j)
  | H_userfield _ j' =>
      exists j g,
        packed = Some j /\ acquired s = Some (mkConf (Some g)) /\
        handler_trace s = [EvJsonPack packed] /\
        j' = set_optional_fields H g cdr j
  | H_dumped _ str => exists j g, dumped str j g
  | H_amqp _ str a => exists j g, dumped str j g /\ a = amqp g
  | H_exchange _ str a ex =>
      exists j g, dumped str j g /\ a = amqp g /\ ex = exchange g
  | H_queue _ str a ex q =>
      exists j g, dumped str j g /\ a = amqp g /\ ex = exchange g /\ q = queue g
  | H_return _ r => whole = (Returned r, handler_trace s)
  | H_done out => whole = (out, handler_trace s)
  end.

(** Steps the handler still has to take, at most. *)
Definition handler_rank (pc : handler_pc) : nat :=
  match pc with
  | H_start => 10 | H_acquired _ => 9 | H_packed _ _ => 8
  | H_uniqueid _ _ => 7 | H_userfield _ _ => 6 | H_dumped _ _ => 5
  | H_amqp _ _ _ => 4 | H_exchange _ _ _ _ => 3 | H_queue _ _ _ _ _ => 2
  | H_return _ _ => 1 | H_done _ => 0
  end%nat.

(** A loaded module at rest: [confs] holds the one object, at address 0, and
    a handler is about to start. *)
Definition serving (conf : cdr_amqp_conf) : system :=
  mkSystem (fun x => if Nat.eqb x 0 then Some (conf, 1%nat) else None)
           (Some 0%nat) H_start [] None C_idle (fun _ => 0%nat).

(** ** Further notions *)

Definition is_log (e : event) : bool :=
  match e with EvLog _ _ => true | _ => false end.

(** The log lines of a trace. *)
Definition log_lines (evs : list event) : list event := filter is_log evs.

(** The connection names asked of [res_amqp] in a trace. *)
Fixpoint connection_requests (evs : list event) : list string :=
  match evs with
  | [] => []
  | EvGetConnection name :: rest => name :: connection_requests rest
  | _ :: rest => connection_requests rest
  end.

(** The record can be packed: the JSON library takes every key and every
    text of the pack call, and the three timestamps can be built. *)
Definition cdr_packable (H : Host) (cdr : ast_cdr) : Prop :=
  Forall (fun t => utf8_check_string H t = true)
         (required_keys ++ cdr_texts H cdr) /\
  ast_json_timeval H (start cdr) <> None /\
  ast_json_timeval H (answer cdr) <> None /\
  ast_json_timeval H (end_ cdr) <> None.

(** The states the module goes through while it is loaded and reloaded but
    never unloaded. *)
Inductive running (H : Host) : module_state -> Prop :=
| run_unloaded : running H unloaded
| run_load (w : world) (st : module_state) :
    running H st -> running H (snd (fst (load_module H w st)))
| run_reload (w : world) (st : module_state) :
    running H st -> running H (snd (fst (reload_module H w st))).

(** How many of the moves of a schedule are the handler's. *)
Fixpoint handler_moves (schedule : list move) : nat :=
  match schedule with
  | [] => 0%nat
  | MHandler :: rest => S (handler_moves rest)
  | _ :: rest => handler_moves rest
  end.

(** The moves that replace or release [confs]. *)
Definition replaces_confs (m : move) : bool :=
  match m with MInstall | MUnload => true | _ => false end.

(** * Properties *)

(** ** Loading and reloading the configuration *)

Section Reload.
Variable H : Host.

(** What one run of the framework can do to the module: either it replaces
    the global object by a pending one whose connection [setup_amqp] has
    just obtained, or it leaves the module as it was. *)
Lemma aco_process_config_cases (w : world) (st : module_state) (reload : bool) :
  let '(status, st', evs) := aco_process_config H w st reload in
  (status = ACO_PROCESS_OK /\
   exists g0 vars g a,
     conf_alloc H w (cfg_options st) = Some (mkConf (Some g0)) /\
     conf_file_status w = CONFIG_LOADED vars /\
     aco_process_vars H (cfg_options st) vars g0 = Some g /\
     ast_amqp_get_connection w (connection g) = Some a /\
     evs = [EvGetConnection (connection g)] /\
     st' = mkState (cfg_options st)
                   (Some (mkConf (Some (set_amqp (Some a) g))))
                   (cdr_registered st))
  \/ (status <> ACO_PROCESS_OK /\ st' = st).
Proof.
  unfold aco_process_config.
  destruct (conf_alloc H w (cfg_options st)) as [[[g0|]]|] eqn:Ealloc;
    cbn [global]; try (right; split; [discriminate | reflexivity]).
  - destruct (conf_file_status w) as [| |vars] eqn:Efile;
      try (right; split; [discriminate | reflexivity]).
    destruct (aco_process_vars H (cfg_options st) vars g0) as [g|] eqn:Evars;
      try (right; split; [discriminate | reflexivity]).
    unfold setup_amqp; cbn [global].
    destruct (ast_amqp_get_connection w (connection g)) as [a|] eqn:Econn.
    + left. split; [reflexivity|].
      exists g0, vars, g, a. repeat split; assumption.
    + right; split; [discriminate | reflexivity].
  - destruct (conf_file_status w); right; split; discriminate || reflexivity.
Qed.

(** A load or reload that does not return 0 leaves the module untouched. *)
Lemma load_config_failure_keeps_state (w : world) (st : module_state)
      (reload : bool) :
  let '(r, st', _) := load_config H w st reload in
  r <> 0 -> st' = st.
Proof.
  unfold load_config.
  pose proof (aco_process_config_cases w st reload) as Hc.
  destruct (aco_process_config H w st reload) as [[status st'] evs].
  destruct Hc as [[-> (g0 & vars & g & a & _ & _ & _ & _ & _ & ->)] | [Hne ->]].
  - cbn. intros Hr; contradiction Hr; reflexivity.
  - destruct status; try contradiction;
      destruct (confs st) as [[[?|]]|]; cbn; intros; reflexivity.
Qed.

(** X14.  A reload that finds the file unchanged builds nothing: it asks for
    no connection, logs nothing, returns 0, and the installed configuration,
    its connection included, stays. *)
Lemma reload_unchanged_keeps_snapshot
      (w : world) (st : module_state) (conf : cdr_amqp_conf)
      (g : cdr_amqp_global_conf) :
  confs st = Some conf -> global conf = Some g ->
  alloc_ok w = true ->
  conf_file_status w = CONFIG_STATUS_FILEUNCHANGED ->
  reload_module H w st = (0, st, []).
Proof.
  intros Hconf Hg Halloc Hfile.
  unfold reload_module, load_config, aco_process_config, conf_alloc,
    conf_global_create.
  rewrite Halloc, Hfile, Hconf, Hg. reflexivity.
Qed.

(** C1.  Reload atomicity: when a reload builds its pending configuration
    and [setup_amqp] gets no connection for the configured name, the reload
    returns -1, the pending object is dropped, and a reader of [confs]
    afterwards gets the very snapshot [S] that was installed before (so the
    same flags, exchange, queue and connection). *)
Theorem reload_without_connection_keeps_snapshot
        (w : world) (st : module_state) (S : cdr_amqp_conf)
        (g0 g : cdr_amqp_global_conf) (vars : list (string * string)) :
  confs st = Some S ->
  conf_alloc H w (cfg_options st) = Some (mkConf (Some g0)) ->
  conf_file_status w = CONFIG_LOADED vars ->
  aco_process_vars H (cfg_options st) vars g0 = Some g ->
  ast_amqp_get_connection w (connection g) = None ->
  let '(r, st', evs) := reload_module H w st in
  r = -1 /\ In (EvGetConnection (connection g)) evs /\
  st' = st /\ ao2_global_obj_ref st' = Some S.
Proof.
  intros HS Halloc Hfile Hvars Hconn.
  unfold reload_module, load_config, aco_process_config.
  rewrite Halloc, Hfile. cbn [global]. rewrite Hvars.
  unfold setup_amqp. cbn [global]. rewrite Hconn.
  repeat split; [left; reflexivity | exact HS].
Qed.


End Reload.

(** ** The installed configuration always has a connection *)

Section Invariant.
Variable H : Host.

Lemma handle_present_confs (st st' : module_state) :
  confs st' = confs st -> handle_present st -> handle_present st'.
Proof. unfold handle_present. intros ->. trivial. Qed.

Lemma load_config_handle_present (w : world) (st : module_state)
      (reload : bool) :
  handle_present st ->
  handle_present (snd (fst (load_config H w st reload))).
Proof.
  intros Hinv. unfold load_config.
  pose proof (aco_process_config_cases H w st reload) as Hc.
  destruct (aco_process_config H w st reload) as [[status st'] evs].
  destruct Hc as [[-> (g0 & vars & g & a & _ & _ & _ & _ & _ & ->)] | [Hne ->]].
  - cbn. intros conf [= <-]. exists (set_amqp (Some a) g), a. split; reflexivity.
  - destruct status; try contradiction;
      destruct (confs st) as [[[?|]]|]; cbn; exact Hinv.
Qed.

Lemma load_module_handle_present (w : world) (st : module_state) :
  handle_present st ->
  handle_present (snd (fst (load_module H w st))).
Proof.
  intros Hinv. unfold load_module.
  destruct (negb (aco_info_init w =? 0)); [exact Hinv|].
  pose proof (load_config_handle_present w (register_options st) false) as Hl.
  destruct (load_config H w (register_options st) false) as [[r st'] evs].
  cbn in Hl.
  assert (handle_present st') as Hst' by (apply Hl; exact Hinv).
  destruct (negb (r =? 0)); [exact Hst'|].
  destruct (negb (ast_cdr_register w =? 0)); exact Hst'.
Qed.

Lemma unload_module_handle_present (w : world) (st : module_state) :
  handle_present (snd (unload_module w st)).
Proof.
  unfold unload_module.
  destruct (negb (ast_cdr_unregister w =? 0)); intros conf; discriminate.
Qed.

Lemma reachable_handle_present (st : module_state) :
  reachable H st -> handle_present st.
Proof.
  induction 1 as [| w st _ IH | w st _ IH | w st _ _].
  - intros conf; discriminate.
  - apply load_module_handle_present, IH.
  - apply load_config_handle_present, IH.
  - apply unload_module_handle_present.
Qed.

(** C10.  In every state the module reaches by loads, reloads and unloads,
    an installed configuration has its [global] part and a non-NULL
    connection; hence, while a configuration is installed, the CDR handler
    never reads through a NULL pointer and never hands a NULL connection to
    the publish call. *)
Theorem installed_snapshot_has_connection (st : module_state) :
  reachable H st ->
  handle_present st /\
  forall (w : world) (cdr : ast_cdr),
    ao2_global_obj_ref st <> None ->
    fst (amqp_cdr_log H w st cdr) <> NullDereference /\
    forall call, In (EvPublish call) (snd (amqp_cdr_log H w st cdr)) ->
                 p_cxn call <> None.
Proof.
  intros Hreach. pose proof (reachable_handle_present st Hreach) as Hinv.
  split; [exact Hinv|].
  intros w cdr Hsome. unfold ao2_global_obj_ref in Hsome.
  destruct (confs st) as [conf|] eqn:Hconf; [|contradiction].
  destruct (Hinv conf Hconf) as (g & a & Hg & Ha).
  unfold amqp_cdr_log. rewrite Hconf, Hg.
  destruct (ast_json_pack H cdr_pack_format (cdr_pack_args H cdr)) as [packed|].
  - destruct (ast_json_dump_string H (set_optional_fields H g cdr packed)) as [str|].
    + destruct (negb (ast_amqp_basic_publish w _ =? 0)); cbn;
        (split; [discriminate|]); intros call Hin;
        repeat (destruct Hin as [Hin|Hin]; try discriminate; try contradiction);
        injection Hin as <-; cbn; rewrite Ha; discriminate.
    + cbn. split; [discriminate|]. intros call Hin.
      repeat (destruct Hin as [Hin|Hin]; try discriminate; try contradiction).
  - cbn. split; [discriminate|]. intros call [Hin|[]]; discriminate.
Qed.

End Invariant.

(** ** The record as a JSON object *)

Section Serializer.
Variable H : Host.

(** The pack call succeeds when the JSON library takes the keys and the
    texts and the three timestamps can be built. *)
Lemma cdr_pack_total (cdr : ast_cdr) (s a e : ast_json) :
  Forall (fun t => utf8_check_string H t = true)
         (required_keys ++ cdr_texts H cdr) ->
  ast_json_timeval H (start cdr) = Some s ->
  ast_json_timeval H (answer cdr) = Some a ->
  ast_json_timeval H (end_ cdr) = Some e ->
  ast_json_pack H cdr_pack_format (cdr_pack_args H cdr)
  = Some (JObject (cdr_members H cdr s a e)).
Proof.
  intros Hall Hs Ha He.
  unfold required_keys, cdr_texts in Hall. cbn [app] in Hall.
  repeat match goal with
         | Hf : Forall _ (_ :: _) |- _ =>
             let Hh := fresh "Hh" in
             apply Forall_cons_iff in Hf; destruct Hf as [Hh Hf]
         end.
  unfold ast_json_pack.
  let t := eval vm_compute in (pack_tokens cdr_pack_format) in
  change (pack_tokens cdr_pack_format) with t.
  unfold cdr_pack_args. rewrite Hs, Ha, He.
  cbn [pack_members pack_value Ascii.eqb Bool.eqb andb].
  repeat match goal with
         | Hh : utf8_check_string H _ = true |- _ =>
             rewrite Hh; clear Hh;
             cbn [pack_members pack_value Ascii.eqb Bool.eqb andb]
         end.
  reflexivity.
Qed.

(** When the pack call returns an object, it is the eighteen members of
    [cdr_members], in that order. *)
Lemma cdr_pack_inv (cdr : ast_cdr) (j : ast_json) :
  ast_json_pack H cdr_pack_format (cdr_pack_args H cdr) = Some j ->
  exists s a e,
    ast_json_timeval H (start cdr) = Some s /\
    ast_json_timeval H (answer cdr) = Some a /\
    ast_json_timeval H (end_ cdr) = Some e /\
    j = JObject (cdr_members H cdr s a e).
Proof.
  unfold ast_json_pack.
  let t := eval vm_compute in (pack_tokens cdr_pack_format) in
  change (pack_tokens cdr_pack_format) with t.
  unfold cdr_pack_args. cbn [Ascii.eqb Bool.eqb].
  destruct (ast_json_timeval H (start cdr)) as [s|];
  destruct (ast_json_timeval H (answer cdr)) as [a|];
  destruct (ast_json_timeval H (end_ cdr)) as [e|];
  cbn;
  repeat match goal with
         | |- context [utf8_check_string H ?x] =>
             destruct (utf8_check_string H x); cbn; try discriminate
         end;
  try discriminate.
  intros [= <-]. exists s, a, e. repeat split.
Qed.

Lemma set_optional_fields_members (g : cdr_amqp_global_conf) (cdr : ast_cdr)
      (s a e : ast_json) :
  set_optional_fields H g cdr (JObject (cdr_members H cdr s a e))
  = JObject (cdr_members H cdr s a e
             ++ optional_member H (loguniqueid g) "uniqueid" (uniqueid cdr)
             ++ optional_member H (loguserfield g) "userfield" (userfield cdr))%list.
Proof.
  unfold set_optional_fields, optional_member, ast_json_object_set,
    ast_json_string_create.
  destruct (negb (loguniqueid g =? 0)), (negb (loguserfield g =? 0));
    destruct (utf8_check_string H (uniqueid cdr)),
             (utf8_check_string H (userfield cdr)),
             (utf8_check_string H "uniqueid"),
             (utf8_check_string H "userfield"); reflexivity.
Qed.

(** Every document the handler dumps is the packed members followed by the
    optional ones, under the configuration installed at the call. *)
Lemma dumped_document (w : world) (st : module_state) (cdr : ast_cdr)
      (doc : ast_json) :
  In (EvJsonDump doc) (snd (amqp_cdr_log H w st cdr)) ->
  exists conf g s a e,
    confs st = Some conf /\ global conf = Some g /\
    ast_json_pack H cdr_pack_format (cdr_pack_args H cdr)
      = Some (JObject (cdr_members H cdr s a e)) /\
    doc = JObject (cdr_members H cdr s a e
                   ++ optional_member H (loguniqueid g) "uniqueid" (uniqueid cdr)
                   ++ optional_member H (loguserfield g) "userfield" (userfield cdr))%list.
Proof.
  unfold amqp_cdr_log.
  destruct (ast_json_pack H cdr_pack_format (cdr_pack_args H cdr))
    as [packed|] eqn:Hpack.
  2:{ cbn. intros [Hin|[]]; discriminate. }
  destruct (cdr_pack_inv cdr packed Hpack) as (s & a & e & _ & _ & _ & ->).
  destruct (confs st) as [conf|]. 2:{ cbn. intros [Hin|[]]; discriminate. }
  destruct (global conf) as [g|] eqn:Hg.
  2:{ cbn. intros [Hin|[]]; discriminate. }
  rewrite set_optional_fields_members.
  intros Hin. exists conf, g, s, a, e. repeat split; try assumption.
  destruct (ast_json_dump_string H _);
    [destruct (negb (ast_amqp_basic_publish w _ =? 0))|]; cbn in Hin;
    repeat (destruct Hin as [Hin|Hin]; try discriminate; try contradiction);
    injection Hin as <-; reflexivity.
Qed.

(** With its flag at 0 an optional field leaves no member; with the flag
    set and the text taken by the JSON library, the member is there with
    the record's text. *)
Lemma optional_member_off (key value : string) :
  optional_member H 0 key value = [].
Proof. reflexivity. Qed.

Lemma optional_member_on (flag : Z) (key value : string) :
  flag <> 0 ->
  utf8_check_string H key = true -> utf8_check_string H value = true ->
  optional_member H flag key value = [(key, JString value)].
Proof.
  intros Hflag Hk Hv. unfold optional_member. rewrite Hk, Hv.
  destruct (Z.eqb_spec flag 0); [contradiction | reflexivity].
Qed.

Lemma optional_member_rejected (flag : Z) (key value : string) :
  utf8_check_string H value = false ->
  optional_member H flag key value = [].
Proof.
  intros Hv. unfold optional_member. rewrite Hv.
  now rewrite Bool.andb_false_r.
Qed.

(** What holds of the optional fields in every dumped document: a flag at 0
    leaves no member; a flag set gives the member with the record's text
    whenever the JSON library takes the text; a text it turns down leaves no
    member either. *)
Lemma optional_fields_policy
      (w : world) (st : module_state) (g : cdr_amqp_global_conf)
      (cdr : ast_cdr) (doc : object) :
  confs st = Some (mkConf (Some g)) ->
  In (EvJsonDump (JObject doc)) (snd (amqp_cdr_log H w st cdr)) ->
  (loguniqueid g = 0 -> has_key doc "uniqueid" = false) /\
  (loguserfield g = 0 -> has_key doc "userfield" = false) /\
  (loguniqueid g <> 0 -> utf8_check_string H "uniqueid" = true ->
   utf8_check_string H (uniqueid cdr) = true ->
   object_get doc "uniqueid" = Some (JString (uniqueid cdr))) /\
  (loguserfield g <> 0 -> utf8_check_string H "userfield" = true ->
   utf8_check_string H (userfield cdr) = true ->
   object_get doc "userfield" = Some (JString (userfield cdr))) /\
  (utf8_check_string H (uniqueid cdr) = false -> has_key doc "uniqueid" = false) /\
  (utf8_check_string H (userfield cdr) = false -> has_key doc "userfield" = false).
Proof.
  intros Hconf Hin.
  destruct (dumped_document w st cdr _ Hin)
    as (conf & g' & s & a & e & Hc & Hg & _ & Hdoc).
  rewrite Hconf in Hc. injection Hc as <-. cbn in Hg. injection Hg as <-.
  injection Hdoc as ->.
  repeat split.
  - intros ->. rewrite optional_member_off.
    unfold optional_member.
    destruct (_ && _ && _); reflexivity.
  - intros ->. rewrite optional_member_off.
    unfold optional_member.
    destruct (_ && _ && _); reflexivity.
  - intros Hf Hk Hv. rewrite (optional_member_on _ _ _ Hf Hk Hv). reflexivity.
  - intros Hf Hk Hv. rewrite (optional_member_on _ _ _ Hf Hk Hv).
    unfold optional_member.
    destruct (_ && _ && _); reflexivity.
  - intros Hv. rewrite (optional_member_rejected _ _ _ Hv).
    unfold optional_member.
    destruct (_ && _ && _); reflexivity.
  - intros Hv. rewrite (optional_member_rejected _ _ _ Hv).
    unfold optional_member.
    destruct (_ && _ && _); reflexivity.
Qed.

(** The [i] directive leaves an integer that fits a C [int] as it is, and
    keeps only the low 32 bits of one that does not. *)
Lemma c_int_fits (z : Z) : - 2 ^ 31 <= z < 2 ^ 31 -> c_int z = z.
Proof.
  intros Hz. unfold c_int. rewrite Z.mod_small; lia.
Qed.

Lemma c_int_range (z : Z) : - 2 ^ 31 <= c_int z < 2 ^ 31.
Proof.
  unfold c_int. pose proof (Z.mod_pos_bound (z + 2 ^ 31) (2 ^ 32)). lia.
Qed.

Lemma c_int_wraps : c_int (2 ^ 32 + 30) = 30 /\ c_int (2 ^ 31) = - 2 ^ 31.
Proof. split; reflexivity. Qed.

(** C4 (as amended).  Under a configuration with both flags set, a document
    the handler dumps has exactly the eighteen packed keys followed by
    [uniqueid] and [userfield] (the two texts being taken by the JSON
    library); for a duration that fits a C [int], [durationsec] is the
    record's duration as an integer; and [disposition] is the host's name
    for the record's disposition. *)
Theorem document_shape_both_flags
        (w : world) (st : module_state) (g : cdr_amqp_global_conf)
        (cdr : ast_cdr) (doc : object) :
  confs st = Some (mkConf (Some g)) ->
  loguniqueid g <> 0 -> loguserfield g <> 0 ->
  utf8_check_string H "uniqueid" = true ->
  utf8_check_string H "userfield" = true ->
  utf8_check_string H (uniqueid cdr) = true ->
  utf8_check_string H (userfield cdr) = true ->
  - 2 ^ 31 <= duration cdr < 2 ^ 31 ->
  In (EvJsonDump (JObject doc)) (snd (amqp_cdr_log H w st cdr)) ->
  keys doc = (required_keys ++ ["uniqueid"; "userfield"])%list /\
  List.length required_keys = 18%nat /\
  object_get doc "durationsec" = Some (JInteger (duration cdr)) /\
  object_get doc "disposition"
    = Some (JString (ast_cdr_disp2str H (disposition cdr))) /\
  object_get doc "uniqueid" = Some (JString (uniqueid cdr)) /\
  object_get doc "userfield" = Some (JString (userfield cdr)).
Proof.
  intros Hconf Hu Hf Hku Hkf Hvu Hvf Hdur Hin.
  destruct (dumped_document w st cdr _ Hin)
    as (conf & g' & s & a & e & Hc & Hg & _ & Hdoc).
  rewrite Hconf in Hc. injection Hc as <-. cbn in Hg. injection Hg as <-.
  rewrite !optional_member_on in Hdoc by assumption.
  injection Hdoc as ->. repeat split.
  cbn. now rewrite (c_int_fits _ Hdur).
Qed.

End Serializer.

(** C4, on a record.  The call of [alice], disposition 8, under both flags. *)
Lemma document_shape_both_flags_alice :
  let doc :=
    (cdr_members TestHost.host TestHost.alice
       (JObject [("sec", JInteger 1000); ("usec", JInteger 0)])
       (JObject [("sec", JInteger 1005); ("usec", JInteger 0)])
       (JObject [("sec", JInteger 1030); ("usec", JInteger 0)])
     ++ [("uniqueid", JString "1432.1"); ("userfield", JString "note")])%list in
  keys doc = (required_keys ++ ["uniqueid"; "userfield"])%list /\
  List.length required_keys = 18%nat /\
  object_get doc "durationsec" = Some (JInteger 30) /\
  object_get doc "disposition" = Some (JString "ANSWERED") /\
  object_get doc "uniqueid" = Some (JString "1432.1") /\
  object_get doc "userfield" = Some (JString "note").
Proof.
  apply (document_shape_both_flags TestHost.host TestHost.quiet
           (TestHost.holding TestHost.both_flags) TestHost.both_flags
           TestHost.alice);
    try reflexivity; try discriminate.
  - cbn. lia.
  - vm_compute. right; left; reflexivity.
Defined.

(** C4, as first stated, fails: the document of [alice] under both flags has
    twenty keys, eighteen of them packed, not sixteen plus two. *)
Lemma document_has_eighteen_packed_keys :
  exists doc,
    In (EvJsonDump (JObject doc))
       (snd (amqp_cdr_log TestHost.host TestHost.quiet
               (TestHost.holding TestHost.both_flags) TestHost.alice)) /\
    keys doc = (required_keys ++ ["uniqueid"; "userfield"])%list /\
    List.length (keys doc) = 20%nat /\
    List.length (keys doc) <> (16 + 2)%nat.
Proof.
  eexists. split; [vm_compute; right; left; reflexivity|].
  repeat split. vm_compute. discriminate.
Qed.

(** C2.  A record whose user field is not UTF-8, logged with [loguserfield]
    set: [ast_json_string_create] gives NULL, [ast_json_object_set] fails and
    its result is dropped, so the handler publishes a document without a
    [userfield] member and returns 0. *)
Theorem rejected_userfield_is_dropped :
  exists packed doc call,
    amqp_cdr_log TestHost.host TestHost.quiet
      (TestHost.holding TestHost.both_flags) TestHost.mallory
    = (Returned 0,
       [EvJsonPack (Some packed); EvJsonDump (JObject doc); EvPublish call]) /\
    loguserfield TestHost.both_flags <> 0 /\
    ast_json_string_create TestHost.host (userfield TestHost.mallory) = None /\
    has_key doc "userfield" = false /\
    object_get doc "uniqueid" = Some (JString (uniqueid TestHost.mallory)).
Proof.
  do 3 eexists. split; [vm_compute; reflexivity|].
  repeat split. discriminate.
Qed.

(** ** Publishing *)

Section Publisher.
Variable H : Host.

(** The handler's cases, for a goal or hypothesis that mentions
    [amqp_cdr_log H w st cdr] unfolded. *)
Ltac handler_cases w st cdr :=
  unfold amqp_cdr_log;
  destruct (ast_json_pack H cdr_pack_format (cdr_pack_args H cdr))
    as [packed|] eqn:Hpack;
  [ destruct (confs st) as [[[g|]]|] eqn:Hconf; cbn [global];
    [ destruct (ast_json_dump_string H (set_optional_fields H g cdr packed))
        as [str|] eqn:Hdump;
      [ destruct (Z.eqb_spec
                    (ast_amqp_basic_publish w
                       (mkPublish (amqp g) (exchange g) (queue g) 0 0
                                  (props) str)) 0) as [Hres|Hres];
        cbn [negb] | ]
    | | ]
  | ].

(** C7.  Delivery contract: every publish call the handler makes carries
    content type [application/json] and delivery mode 2, both declared in
    the property flags, has the mandatory and immediate arguments 0, and
    takes exchange, routing key and connection from the configuration
    installed at the call. *)
Theorem delivery_contract (w : world) (st : module_state) (cdr : ast_cdr)
        (call : publish_call) :
  In (EvPublish call) (snd (amqp_cdr_log H w st cdr)) ->
  content_type (p_props call) = "application/json" /\
  delivery_mode (p_props call) = 2 /\
  _flags (p_props call)
    = Z.lor AMQP_BASIC_DELIVERY_MODE_FLAG AMQP_BASIC_CONTENT_TYPE_FLAG /\
  p_mandatory call = 0 /\ p_immediate call = 0 /\
  exists conf g,
    ao2_global_obj_ref st = Some conf /\ global conf = Some g /\
    p_exchange call = exchange g /\ p_routing_key call = queue g /\
    p_cxn call = amqp g.
Proof.
  unfold ao2_global_obj_ref.
  handler_cases w st cdr; cbn; intros Hin;
    repeat (destruct Hin as [Hin|Hin]; try discriminate; try contradiction);
    injection Hin as <-; cbn; repeat split;
    exists (mkConf (Some g)), g; repeat split.
Qed.

Lemma handler_publishes_at_most_once (w : world) (st : module_state)
      (cdr : ast_cdr) :
  (publishes (snd (amqp_cdr_log H w st cdr)) <= 1)%nat.
Proof. handler_cases w st cdr; cbn; lia. Qed.

Lemma log_all_cons (w : world) (st : module_state) (cdr : ast_cdr)
      (rest : list (world * module_state * ast_cdr)) :
  log_all H ((w, st, cdr) :: rest)
  = (snd (amqp_cdr_log H w st cdr) ++ log_all H rest)%list.
Proof. reflexivity. Qed.

Lemma publishes_app (a b : list event) :
  publishes (a ++ b) = (publishes a + publishes b)%nat.
Proof. unfold publishes. now rewrite filter_app, length_app. Qed.

Lemma log_all_bounded (calls : list (world * module_state * ast_cdr)) :
  (publishes (log_all H calls) <= List.length calls)%nat.
Proof.
  induction calls as [|[[w st] cdr] rest IH].
  - apply Nat.le_refl.
  - rewrite log_all_cons, publishes_app.
    pose proof (handler_publishes_at_most_once w st cdr) as Hone.
    change (List.length ((w, st, cdr) :: rest)) with (S (List.length rest)).
    generalize dependent (publishes (snd (amqp_cdr_log H w st cdr))).
    generalize dependent (publishes (log_all H rest)).
    intros; lia.
Qed.

(** At most once, nothing partial, as far as it holds of every call: a call
    of the handler makes at most one publish call; none, with result -1,
    when the pack or the dump fails; exactly one when it returns after both
    succeeded, and then the result is -1 for a non-zero return of the
    publish call and 0 otherwise.  While a configuration is installed the
    handler does return.  Over any run of calls the publish calls never
    outnumber the calls, so nothing is sent again later. *)
Lemma at_most_once_no_partial_publish
        (w : world) (st : module_state) (cdr : ast_cdr) :
  let packed := ast_json_pack H cdr_pack_format (cdr_pack_args H cdr) in
  let out := fst (amqp_cdr_log H w st cdr) in
  let evs := snd (amqp_cdr_log H w st cdr) in
  (publishes evs <= 1)%nat /\
  (packed = None -> out = Returned (-1) /\ publishes evs = 0%nat) /\
  (forall doc, In (EvJsonDump doc) evs ->
               ast_json_dump_string H doc = None ->
               out = Returned (-1) /\ publishes evs = 0%nat) /\
  (forall r, out = Returned r ->
             packed <> None ->
             (forall doc, In (EvJsonDump doc) evs ->
                          ast_json_dump_string H doc <> None) ->
             exists call,
               filter is_publish evs = [EvPublish call] /\
               (ast_amqp_basic_publish w call <> 0 -> r = -1) /\
               (ast_amqp_basic_publish w call = 0 -> r = 0)) /\
  (forall conf g, confs st = Some conf -> global conf = Some g ->
                  exists r, out = Returned r) /\
  (forall calls, (publishes (log_all H calls) <= List.length calls)%nat).
Proof.
  cbv zeta. split; [apply handler_publishes_at_most_once|].
  split; [|split; [|split; [|split; [|apply log_all_bounded]]]].
  - intros Hnone. unfold amqp_cdr_log. rewrite Hnone. split; reflexivity.
  - handler_cases w st cdr; cbn; intros doc Hin Hd;
      repeat (destruct Hin as [Hin|Hin]; try discriminate; try contradiction);
      injection Hin as <-; try congruence; split; reflexivity.
  - handler_cases w st cdr; cbn; intros r Hr Hp Hd;
      try discriminate; try (contradiction Hp; reflexivity).
    + eexists; split; [reflexivity|]. injection Hr as <-.
      split; [intros Hne; contradiction | reflexivity].
    + eexists; split; [reflexivity|]. injection Hr as <-.
      split; [reflexivity | intros He; contradiction].
    + exfalso. apply (Hd (set_optional_fields H g cdr packed));
        [right; left; reflexivity | exact Hdump].
  - handler_cases w st cdr; cbn; intros conf g' Hc Hg;
      try discriminate; eauto.
    injection Hc as <-. discriminate.
Qed.

(** The handler with a configuration installed, case by case: a failed pack
    gives -1 and nothing else; a failed dump of the document gives -1 and no
    publish call; otherwise there is exactly one publish call, its body the
    dump of the document, and the result is 0 or -1 as the call returned 0
    or not. *)
Lemma handler_with_configuration
      (w : world) (st : module_state) (g : cdr_amqp_global_conf)
      (cdr : ast_cdr) :
  confs st = Some (mkConf (Some g)) ->
  let out := fst (amqp_cdr_log H w st cdr) in
  let evs := snd (amqp_cdr_log H w st cdr) in
  match ast_json_pack H cdr_pack_format (cdr_pack_args H cdr) with
  | None => out = Returned (-1) /\ evs = [EvJsonPack None]
  | Some j =>
      let doc := set_optional_fields H g cdr j in
      In (EvJsonDump doc) evs /\
      match ast_json_dump_string H doc with
      | None => out = Returned (-1) /\ publishes evs = 0%nat
      | Some str =>
          let call := mkPublish (amqp g) (exchange g) (queue g) 0 0 props str in
          filter is_publish evs = [EvPublish call] /\
          out = Returned (if Z.eqb (ast_amqp_basic_publish w call) 0
                          then 0 else -1)
      end
  end.
Proof.
  intros Hconf. cbv zeta. unfold amqp_cdr_log. rewrite Hconf. cbn [global].
  destruct (ast_json_pack H cdr_pack_format (cdr_pack_args H cdr)) as [j|];
    [|split; reflexivity].
  destruct (ast_json_dump_string H (set_optional_fields H g cdr j)) as [str|].
  - destruct (ast_amqp_basic_publish w _ =? 0); cbn;
      (split; [right; left; reflexivity|]); split; reflexivity.
  - cbn. split; [right; left; reflexivity|]. split; reflexivity.
Qed.


End Publisher.

(** ** Defaults and explicit values *)

Section Defaults.
Variable H : Host.

Lemma strcaseeq_other (a b n : string) :
  strcaseeq a n = true ->
  strcaseeq b n = String.eqb (string_lower b) (string_lower a).
Proof.
  unfold strcaseeq. intros Ha. apply String.eqb_eq in Ha. now rewrite Ha.
Qed.

(** Processing the file sets each field to the last explicit value of its
    option and leaves the others as they were; the connection is not
    touched. *)
Lemma aco_process_vars_fields (vars : list (string * string)) :
  forall g g',
    aco_process_vars H registered_options vars g = Some g' ->
    connection g' = or_default (explicit_value "connection" vars) (connection g) /\
    queue g' = or_default (explicit_value "queue" vars) (queue g) /\
    exchange g' = or_default (explicit_value "exchange" vars) (exchange g) /\
    loguniqueid g'
      = or_default (option_map (ast_true H) (explicit_value "loguniqueid" vars))
                   (loguniqueid g) /\
    loguserfield g'
      = or_default (option_map (ast_true H) (explicit_value "loguserfield" vars))
                   (loguserfield g) /\
    amqp g' = amqp g.
Proof.
  induction vars as [|[n v] rest IH]; intros g g' Hp.
  - injection Hp as <-. repeat split.
  - cbn [aco_process_vars] in Hp.
    destruct (aco_option_find registered_options n) as [o|] eqn:Hfind;
      [|discriminate].
    destruct (aco_handle H o v g) as [g1|] eqn:Hh; [|discriminate].
    specialize (IH g1 g' Hp).
    destruct IH as (Ic & Iq & Ie & Iu & If & Ia).
    cbn [explicit_value].
    rewrite Ic, Iq, Ie, Iu, If, Ia. clear Ic Iq Ie Iu If Ia Hp.
    let l := eval cbv [registered_options register_options aco_option_register
                         cfg_options unloaded app] in registered_options in
    change registered_options with l in Hfind.
    cbn [aco_option_find opt_name] in Hfind.
    repeat match type of Hfind with
           | (if strcaseeq ?a n then _ else _) = _ =>
               let E := fresh "E" in
               destruct (strcaseeq a n) eqn:E;
               [ injection Hfind as <-;
                 cbn [aco_handle opt_type opt_field opt_flags set_int_field
                      set_string_field Z.eqb] in Hh;
                 injection Hh as <-;
                 repeat match goal with
                        | |- context [strcaseeq ?b n] =>
                            lazymatch b with
                            | a => fail
                            | _ =>
                                rewrite (strcaseeq_other a b n E);
                                let t := eval vm_compute in
                                  (String.eqb (string_lower b) (string_lower a)) in
                                change (String.eqb (string_lower b) (string_lower a))
                                  with t
                            end
                        end;
                 rewrite ?E;
                 repeat match goal with
                        | |- context [explicit_value ?k rest] =>
                            destruct (explicit_value k rest)
                        end;
                 cbn [connection queue exchange loguniqueid loguserfield amqp
                      or_default option_map];
                 repeat split
               | ]
           end.
    discriminate.
Qed.



End Defaults.


(** ** The statements on concrete calls *)

(** C1, on a reload that names a connection the broker side does not have:
    the module holding [both_flags] keeps it. *)
Lemma reload_without_connection_example :
  let '(r, st', evs) :=
    reload_module TestHost.host
      (TestHost.world_with (CONFIG_LOADED [("connection", "rabbit")]))
      (TestHost.holding TestHost.both_flags) in
  r = -1 /\ In (EvGetConnection "rabbit") evs /\
  st' = TestHost.holding TestHost.both_flags /\
  ao2_global_obj_ref st' = Some (mkConf (Some TestHost.both_flags)).
Proof.
  apply (reload_without_connection_keeps_snapshot TestHost.host
           (TestHost.world_with (CONFIG_LOADED [("connection", "rabbit")]))
           (TestHost.holding TestHost.both_flags)
           (mkConf (Some TestHost.both_flags))
           default_global
           (mkGlobal "rabbit" "asterisk_cdr" EmptyString 0 0 None)
           [("connection", "rabbit")]); reflexivity.
Defined.


(** C10, on the module right after a successful [load_module]. *)
Lemma installed_snapshot_has_connection_example :
  let st :=
    snd (fst (load_module TestHost.host
                (TestHost.world_with (CONFIG_LOADED [("connection", "bunny")]))
                unloaded)) in
  ao2_global_obj_ref st
    = Some (mkConf (Some (mkGlobal "bunny" "asterisk_cdr" EmptyString 0 0
                                   (Some 7%nat)))) /\
  (handle_present st /\
   forall (w : world) (cdr : ast_cdr),
     ao2_global_obj_ref st <> None ->
     fst (amqp_cdr_log TestHost.host w st cdr) <> NullDereference /\
     forall call, In (EvPublish call) (snd (amqp_cdr_log TestHost.host w st cdr)) ->
                  p_cxn call <> None).
Proof.
  split; [reflexivity|].
  apply (installed_snapshot_has_connection TestHost.host).
  apply reach_load, reach_unloaded.
Defined.

(** C7, on the call of [alice]. *)
Lemma delivery_contract_example :
  exists call,
    first_publish (snd (amqp_cdr_log TestHost.host TestHost.quiet
                          (TestHost.holding TestHost.both_flags) TestHost.alice))
    = Some call /\
    (content_type (p_props call) = "application/json" /\
     delivery_mode (p_props call) = 2 /\
     _flags (p_props call)
       = Z.lor AMQP_BASIC_DELIVERY_MODE_FLAG AMQP_BASIC_CONTENT_TYPE_FLAG /\
     p_mandatory call = 0 /\ p_immediate call = 0 /\
     exists conf g,
       ao2_global_obj_ref (TestHost.holding TestHost.both_flags) = Some conf /\
       global conf = Some g /\
       p_exchange call = exchange g /\ p_routing_key call = queue g /\
       p_cxn call = amqp g).
Proof.
  eexists. split; [vm_compute; reflexivity|].
  apply (delivery_contract TestHost.host TestHost.quiet
           (TestHost.holding TestHost.both_flags) TestHost.alice).
  vm_compute. right; right; left; reflexivity.
Defined.

(** C3.  The module is loaded, then unloaded while the host refuses to
    unregister the backend: [confs] is released and the handler stays
    registered.  Called then, the handler packs the record and reads through
    the NULL configuration; it does not return -1.  And on a configuration
    whose connection is NULL it goes all the way to the publish call. *)
Theorem missing_state_is_not_checked :
  let loaded :=
    snd (fst (load_module TestHost.host
                (TestHost.world_with (CONFIG_LOADED [("connection", "bunny")]))
                unloaded)) in
  let st := snd (unload_module TestHost.busy loaded) in
  reachable TestHost.host st /\
  cdr_registered loaded = true /\ cdr_registered st = true /\
  ao2_global_obj_ref st = None /\
  (exists j,
      amqp_cdr_log TestHost.host TestHost.quiet st TestHost.alice
      = (NullDereference, [EvJsonPack (Some j)])) /\
  (exists call,
      first_publish (snd (amqp_cdr_log TestHost.host TestHost.quiet
                            (TestHost.holding TestHost.no_handle) TestHost.alice))
      = Some call /\
      p_cxn call = None).
Proof.
  cbv zeta. split; [apply reach_unload, reach_load, reach_unloaded|].
  repeat split.
  - eexists. vm_compute. reflexivity.
  - eexists. split; [vm_compute; reflexivity | reflexivity].
Qed.


(** ** The handler next to a reload *)

Section Heap.

Lemma rc_at_set (h : heap) (p : addr) (o : cdr_amqp_conf) (rc : nat) (x : addr) :
  rc_at (heap_set h p (Some (o, rc))) x = if Nat.eqb x p then rc else rc_at h x.
Proof. unfold rc_at, heap_set. destruct (Nat.eqb x p); reflexivity. Qed.

Lemma rc_at_bump (h : heap) (o : option addr) (x : addr) :
  (forall a, o = Some a -> 1 <= rc_at h a)%nat ->
  rc_at (ao2_bump h o) x = (rc_at h x + refers o x)%nat.
Proof.
  destruct o as [a|]; cbn [ao2_bump refers]; [|intros _; lia].
  intros Hlive. specialize (Hlive a eq_refl). unfold rc_at in *.
  destruct (h a) as [[o rc]|] eqn:Ha; [|lia].
  unfold heap_set. rewrite (Nat.eqb_sym a x).
  destruct (Nat.eqb_spec x a) as [->|]; [rewrite Ha|]; lia.
Qed.

Lemma rc_at_cleanup (h : heap) (o : option addr) (x : addr) :
  rc_at (ao2_cleanup h o) x = (rc_at h x - refers o x)%nat.
Proof.
  destruct o as [a|]; cbn [ao2_cleanup refers]; [|lia].
  unfold rc_at. rewrite (Nat.eqb_sym a x).
  destruct (h a) as [[o [|[|n]]]|] eqn:Ha; unfold heap_set;
    destruct (Nat.eqb_spec x a) as [->|]; rewrite ?Ha; lia.
Qed.

Lemma content_bump (h : heap) (o c : option addr) :
  content (ao2_bump h o) c = content h c.
Proof.
  destruct o as [a|], c as [c|]; try reflexivity. cbn [ao2_bump content].
  destruct (h a) as [[o rc]|] eqn:Ha; [|reflexivity].
  unfold heap_set. destruct (Nat.eqb_spec c a) as [->|]; [rewrite Ha|];
    reflexivity.
Qed.

Lemma content_cleanup (h : heap) (o c : option addr) :
  (forall x, c = Some x -> refers o x = 0 \/ 2 <= rc_at h x)%nat ->
  content (ao2_cleanup h o) c = content h c.
Proof.
  destruct c as [c|]; [|reflexivity]. intros Hc.
  specialize (Hc c eq_refl).
  destruct o as [a|]; [|reflexivity]. cbn [ao2_cleanup content refers] in *.
  unfold rc_at in Hc.
  destruct (h a) as [[o [|[|n]]]|] eqn:Ha; unfold heap_set;
    destruct (Nat.eqb_spec c a) as [->|Hne]; rewrite ?Ha in *;
    try reflexivity;
    rewrite ?Nat.eqb_refl in Hc; destruct Hc; lia.
Qed.

Lemma content_set (h : heap) (p : addr) (v : option (cdr_amqp_conf * nat))
      (c : option addr) :
  (forall x, c = Some x -> refers (Some p) x = 0%nat) ->
  content (heap_set h p v) c = content h c.
Proof.
  destruct c as [c|]; [|reflexivity]. intros Hc. specialize (Hc c eq_refl).
  cbn [refers content] in *. unfold heap_set. rewrite (Nat.eqb_sym c p).
  destruct (Nat.eqb p c); [discriminate | reflexivity].
Qed.

Lemma refers_le_1 (o : option addr) (x : addr) : (refers o x <= 1)%nat.
Proof. destruct o as [a|]; cbn; [destruct (Nat.eqb a x)|]; lia. Qed.

Lemma refers_sym (a b : addr) : refers (Some a) b = refers (Some b) a.
Proof. cbn. now rewrite Nat.eqb_sym. Qed.

Lemma refers_same (a : addr) : refers (Some a) a = 1%nat.
Proof. cbn. now rewrite Nat.eqb_refl. Qed.

End Heap.

Section Interleaving.
Variable H : Host.
Variable w : world.
Variable cdr : ast_cdr.

Lemma unpublished_refers (c : control_pc) (p : addr) :
  unpublished c = Some p -> refers (pending c) p = 1%nat.
Proof.
  destruct c; cbn; intros [= ->]; now rewrite Nat.eqb_refl.
Qed.

(** A handler step that touches no object and keeps or gives up the
    handler's reference. *)
Lemma consistent_set_pc (s : system) (pc' : handler_pc) (evs : list event) :
  consistent s ->
  handler_conf pc' = handler_conf (handler s) \/ handler_conf pc' = None ->
  consistent (set_handler s (objects s) pc' evs).
Proof.
  intros [Hcnt Hpriv Hview] Hpc.
  assert (forall x, handler_refers pc' x <= handler_refers (handler s) x)%nat
    as Hle.
  { intros x. unfold handler_refers.
    destruct Hpc as [-> | ->]; [lia | destruct (handler_conf (handler s)); lia]. }
  constructor; unfold holders, set_handler in *;
    cbn [objects slot handler control others acquired] in *.
  - intros x. specialize (Hcnt x). specialize (Hle x). lia.
  - intros p Hp. specialize (Hpriv p Hp). specialize (Hle p).
    pose proof (unpublished_refers _ _ Hp) as Hone. lia.
  - intros c Hc. destruct Hpc as [Hsame | Hnone]; [|congruence].
    apply Hview. congruence.
Qed.

Lemma consistent_acquire (s : system) :
  consistent s -> handler s = H_start ->
  consistent (mkSystem (ao2_bump (objects s) (slot s)) (slot s)
                       (H_acquired (slot s)) (handler_trace s)
                       (content (objects s) (slot s)) (control s) (others s)).
Proof.
  intros [Hcnt Hpriv Hview] Hpc.
  assert (forall x, holders s x
                    = (refers (slot s) x + refers (pending (control s)) x
                       + others s x)%nat) as Hold.
  { intros x. unfold holders, handler_refers. rewrite Hpc. cbn. lia. }
  constructor; cbn [objects control acquired handler].
  - intros x. rewrite rc_at_bump.
    + specialize (Hcnt x). rewrite Hold in Hcnt.
      unfold holders, handler_refers. cbn. lia.
    + intros a Ha. specialize (Hcnt a). rewrite Hold, Ha in Hcnt.
      cbn in Hcnt. rewrite Nat.eqb_refl in Hcnt. lia.
  - intros p Hp. specialize (Hpriv p Hp).
    pose proof (unpublished_refers _ _ Hp) as Hone. rewrite Hold in Hpriv.
    unfold holders, handler_refers. cbn. lia.
  - intros c [= <-]. apply content_bump.
Qed.

Lemma consistent_release (s : system) (conf : option addr) (r : Z) :
  consistent s -> handler s = H_return conf r ->
  consistent (set_handler s (ao2_cleanup (objects s) conf)
                          (H_done (Returned r)) []).
Proof.
  intros [Hcnt Hpriv Hview] Hpc.
  assert (forall x, holders s x
                    = (refers (slot s) x + refers conf x
                       + refers (pending (control s)) x + others s x)%nat)
    as Hold.
  { intros x. unfold holders, handler_refers. rewrite Hpc. reflexivity. }
  constructor; unfold set_handler;
    cbn [objects slot handler control others acquired].
  - intros x. rewrite rc_at_cleanup. specialize (Hcnt x). rewrite Hold in Hcnt.
    unfold holders, handler_refers. cbn. lia.
  - intros p Hp. specialize (Hpriv p Hp).
    pose proof (unpublished_refers _ _ Hp) as Hone. rewrite Hold in Hpriv.
    unfold holders, handler_refers. cbn. lia.
  - intros c [=].
Qed.

Lemma handler_step_consistent (s s' : system) :
  consistent s -> handler_step H w cdr s = Some s' -> consistent s'.
Proof.
  intros Hs Hstep. unfold handler_step in Hstep.
  destruct (handler s) eqn:Hpc.
  - injection Hstep as <-. now apply consistent_acquire.
  - destruct (ast_json_pack H cdr_pack_format (cdr_pack_args H cdr));
      injection Hstep as <-; apply consistent_set_pc; auto;
      left; rewrite Hpc; reflexivity.
  - destruct (read_global (objects s) conf) as [[out|g]|]; try discriminate;
      injection Hstep as <-; apply consistent_set_pc; auto;
      rewrite Hpc; cbn; auto.
  - destruct (read_global (objects s) conf) as [[out|g]|]; try discriminate;
      injection Hstep as <-; apply consistent_set_pc; auto;
      rewrite Hpc; cbn; auto.
  - destruct (ast_json_dump_string H json);
      injection Hstep as <-; apply consistent_set_pc; auto;
      left; rewrite Hpc; reflexivity.
  - destruct (read_global (objects s) conf) as [[out|g]|]; try discriminate;
      injection Hstep as <-; apply consistent_set_pc; auto;
      rewrite Hpc; cbn; auto.
  - destruct (read_global (objects s) conf) as [[out|g]|]; try discriminate;
      injection Hstep as <-; apply consistent_set_pc; auto;
      rewrite Hpc; cbn; auto.
  - destruct (read_global (objects s) conf) as [[out|g]|]; try discriminate;
      injection Hstep as <-; apply consistent_set_pc; auto;
      rewrite Hpc; cbn; auto.
  - destruct (negb (ast_amqp_basic_publish w _ =? 0));
      injection Hstep as <-; apply consistent_set_pc; auto;
      left; rewrite Hpc; reflexivity.
  - injection Hstep as <-. now apply consistent_release.
  - discriminate.
Qed.

Lemma handler_refers_conf (pc : handler_pc) (c : option addr) (x : addr) :
  handler_conf pc = Some c -> handler_refers pc x = refers c x.
Proof. unfold handler_refers. now intros ->. Qed.

Lemma handler_refers_le (pc : handler_pc) (c : option addr) (x : addr) :
  handler_conf pc = Some c -> forall s, handler s = pc ->
  (refers c x <= holders s x)%nat.
Proof.
  intros Hc s Hs. unfold holders. rewrite Hs, (handler_refers_conf _ _ _ Hc). lia.
Qed.

(** A step of another thread: the handler and what it acquired are as
    before; it remains to count the references, keep the pending object
    private, and leave alone what the handler's reference leads to. *)
Lemma consistent_frame (s s' : system) :
  consistent s ->
  handler s' = handler s -> acquired s' = acquired s ->
  (forall x, holders s' x <= rc_at (objects s') x)%nat ->
  (forall p, unpublished (control s') = Some p -> holders s' p = 1%nat) ->
  (forall c, handler_conf (handler s) = Some c ->
             content (objects s') c = content (objects s) c) ->
  consistent s'.
Proof.
  intros [Hcnt Hpriv Hview] Hh Ha Hc' Hp' Hv'. constructor; auto.
  intros c Hc. rewrite Hh in Hc. rewrite Ha, (Hv' c Hc). now apply Hview.
Qed.

(** Writing to the pending object while it is not installed. *)
Lemma consistent_write_pending (s : system) (p : addr) (o o' : cdr_amqp_conf)
      (rc : nat) (c' : control_pc) :
  consistent s ->
  unpublished (control s) = Some p -> unpublished c' = Some p ->
  objects s p = Some (o, rc) ->
  consistent (set_control s (heap_set (objects s) p (Some (o', rc))) (slot s) c').
Proof.
  intros Hs Hp Hp' Hobj. pose proof Hs as [Hcnt Hpriv Hview].
  pose proof (unpublished_refers _ _ Hp) as Hone.
  pose proof (unpublished_refers _ _ Hp') as Hone'.
  assert (forall x, refers (pending c') x = refers (pending (control s)) x) as Hsame.
  { intros x. destruct (control s), c'; cbn [unpublished] in Hp, Hp';
      try discriminate; injection Hp as ->; injection Hp' as ->; reflexivity. }
  apply (consistent_frame s); auto; unfold set_control, holders in *;
    cbn [objects slot handler control others acquired] in *.
  - intros x. rewrite rc_at_set, Hsame. specialize (Hcnt x).
    destruct (Nat.eqb_spec x p) as [->|]; [|exact Hcnt].
    unfold rc_at in Hcnt. now rewrite Hobj in Hcnt.
  - intros q Hq. rewrite Hsame. apply Hpriv. congruence.
  - intros c Hc. apply content_set. intros x ->.
    specialize (Hpriv p Hp).
    rewrite (handler_refers_conf _ _ p Hc) in Hpriv.
    rewrite refers_sym. lia.
Qed.

Lemma consistent_begin (s : system) (p : addr) (o : cdr_amqp_conf) :
  consistent s -> control s = C_idle -> objects s p = None ->
  consistent (set_control s (heap_set (objects s) p (Some (o, 1%nat))) (slot s)
                          (C_allocated p)).
Proof.
  intros Hs Hctl Hfree. pose proof Hs as [Hcnt Hpriv Hview].
  assert (holders s p = 0%nat) as Hzero.
  { specialize (Hcnt p). unfold rc_at in Hcnt. rewrite Hfree in Hcnt. lia. }
  apply (consistent_frame s); auto; unfold set_control, holders in *;
    rewrite Hctl in *; cbn [objects slot handler control others acquired pending] in *.
  - intros x. rewrite rc_at_set. specialize (Hcnt x). cbn [refers] in *.
    rewrite (Nat.eqb_sym p x).
    destruct (Nat.eqb_spec x p) as [->|]; lia.
  - intros q [= <-]. rewrite refers_same. lia.
  - intros c Hc. apply content_set. intros x ->.
    rewrite (handler_refers_conf _ _ p Hc) in Hzero.
    rewrite refers_sym. lia.
Qed.

Lemma consistent_install (s : system) (p : addr) :
  consistent s -> control s = C_checked p ->
  consistent (set_control s (ao2_cleanup (ao2_bump (objects s) (Some p)) (slot s))
                          (Some p) (C_installed p)).
Proof.
  intros Hs Hctl. pose proof Hs as [Hcnt Hpriv Hview].
  assert (forall x, rc_at (ao2_bump (objects s) (Some p)) x
                    = (rc_at (objects s) x + refers (Some p) x)%nat) as Hbump.
  { intros x. apply rc_at_bump. intros a [= <-]. specialize (Hcnt p).
    unfold holders in Hcnt. rewrite Hctl in Hcnt. cbn [pending] in Hcnt.
    rewrite refers_same in Hcnt. lia. }
  apply (consistent_frame s); auto; unfold set_control, holders in *;
    rewrite Hctl in *; cbn [objects slot handler control others acquired pending] in *.
  - intros x. rewrite rc_at_cleanup, Hbump. specialize (Hcnt x). lia.
  - intros q [=].
  - intros c Hc. rewrite content_cleanup, content_bump; [reflexivity|].
    intros x ->. rewrite Hbump. specialize (Hcnt x).
    rewrite (handler_refers_conf _ _ x Hc), refers_same in Hcnt.
    pose proof (refers_le_1 (slot s) x). lia.
Qed.

Lemma consistent_drop (s : system) (p : addr) :
  consistent s -> pending (control s) = Some p ->
  consistent (set_control s (ao2_cleanup (objects s) (Some p)) (slot s) C_idle).
Proof.
  intros Hs Hctl. pose proof Hs as [Hcnt Hpriv Hview].
  apply (consistent_frame s); auto; unfold set_control, holders in *;
    rewrite Hctl in *; cbn [objects slot handler control others acquired pending] in *.
  - intros x. rewrite rc_at_cleanup. specialize (Hcnt x).
    change (refers None x) with 0%nat. lia.
  - intros q [=].
  - intros c Hc. apply content_cleanup.
    intros x ->. specialize (Hcnt x).
    rewrite (handler_refers_conf _ _ x Hc), refers_same in Hcnt.
    pose proof (refers_le_1 (Some p) x). lia.
Qed.

Lemma consistent_unload (s : system) :
  consistent s -> control s = C_idle ->
  consistent (set_control s (ao2_cleanup (objects s) (slot s)) None C_idle).
Proof.
  intros Hs Hctl. pose proof Hs as [Hcnt Hpriv Hview].
  apply (consistent_frame s); auto; unfold set_control, holders in *;
    rewrite Hctl in *; cbn [objects slot handler control others acquired pending] in *.
  - intros x. rewrite rc_at_cleanup. specialize (Hcnt x).
    change (refers None x) with 0%nat. lia.
  - intros q [=].
  - intros c Hc. apply content_cleanup.
    intros x ->. specialize (Hcnt x).
    rewrite (handler_refers_conf _ _ x Hc), refers_same in Hcnt.
    pose proof (refers_le_1 (slot s) x). lia.
Qed.

Lemma consistent_other_acquire (s : system) (a : addr) :
  consistent s -> slot s = Some a ->
  consistent (set_others s (ao2_bump (objects s) (Some a))
                (fun y => if Nat.eqb y a then S (others s y) else others s y)).
Proof.
  intros Hs Hslot. pose proof Hs as [Hcnt Hpriv Hview].
  assert (forall x, (if Nat.eqb x a then S (others s x) else others s x)
                    = (others s x + refers (Some a) x)%nat) as Hoth.
  { intros x. cbn [refers]. rewrite (Nat.eqb_sym a x).
    destruct (Nat.eqb x a); lia. }
  apply (consistent_frame s); auto; unfold set_others, holders in *;
    rewrite Hslot in *; cbn [objects slot handler control others acquired] in *.
  - intros x. rewrite Hoth, rc_at_bump; [specialize (Hcnt x); lia|].
    intros b [= <-]. specialize (Hcnt a). rewrite refers_same in Hcnt. lia.
  - intros q Hq. rewrite Hoth. specialize (Hpriv q Hq).
    pose proof (unpublished_refers _ _ Hq). lia.
  - intros c Hc. apply content_bump.
Qed.

Lemma consistent_other_release (s : system) (x0 : addr) (n : nat) :
  consistent s -> others s x0 = S n ->
  consistent (set_others s (ao2_cleanup (objects s) (Some x0))
                (fun y => if Nat.eqb y x0 then n else others s y)).
Proof.
  intros Hs Hn. pose proof Hs as [Hcnt Hpriv Hview].
  assert (forall x, (if Nat.eqb x x0 then n else others s x)
                    = (others s x - refers (Some x0) x)%nat
                    /\ (refers (Some x0) x <= others s x)%nat) as Hoth.
  { intros x. cbn [refers]. rewrite (Nat.eqb_sym x0 x).
    destruct (Nat.eqb_spec x x0) as [->|]; lia. }
  apply (consistent_frame s); auto; unfold set_others, holders in *;
    cbn [objects slot handler control others acquired] in *.
  - intros x. destruct (Hoth x) as [-> Hle]. rewrite rc_at_cleanup.
    specialize (Hcnt x). lia.
  - intros q Hq. destruct (Hoth q) as [-> Hle]. specialize (Hpriv q Hq).
    pose proof (unpublished_refers _ _ Hq). lia.
  - intros c Hc. apply content_cleanup.
    intros x ->. specialize (Hcnt x). destruct (Hoth x) as [_ Hle].
    rewrite (handler_refers_conf _ _ x Hc), refers_same in Hcnt.
    pose proof (refers_le_1 (Some x0) x). lia.
Qed.

Lemma consistent_phase (s : system) (p : addr) (c' : control_pc) :
  consistent s ->
  unpublished (control s) = Some p -> unpublished c' = Some p ->
  consistent (set_control s (objects s) (slot s) c').
Proof.
  intros Hs Hp Hp'. pose proof Hs as [Hcnt Hpriv Hview].
  assert (forall x, refers (pending c') x = refers (pending (control s)) x) as Hsame.
  { intros x. destruct (control s), c'; cbn [unpublished] in Hp, Hp';
      try discriminate; injection Hp as ->; injection Hp' as ->; reflexivity. }
  apply (consistent_frame s); auto; unfold set_control, holders in *;
    cbn [objects slot handler control others acquired] in *.
  - intros x. rewrite Hsame. apply Hcnt.
  - intros q Hq. rewrite Hsame. apply Hpriv. congruence.
Qed.

Lemma other_step_consistent (m : move) (s s' : system) :
  consistent s -> other_step H m s = Some s' -> consistent s'.
Proof.
  intros Hs Hstep. unfold other_step in Hstep.
  destruct m; destruct (control s) eqn:Hctl; try discriminate;
    try (destruct (slot s) as [a|] eqn:Hslot; injection Hstep as <-;
         [now apply consistent_other_acquire | exact Hs]);
    try (destruct (others s x) as [|n] eqn:Hn; [discriminate|];
         injection Hstep as <-; now apply (consistent_other_release s x n)).
  - (* the pending object is allocated *)
    destruct (objects s p) eqn:Hfree; [discriminate|].
    destruct (conf_alloc H w0 opts); [|discriminate].
    injection Hstep as <-. now apply consistent_begin.
  - (* it is filled from the file *)
    destruct (objects s p) as [[o rc]|] eqn:Hobj; [|discriminate].
    assert (consistent (set_control s (objects s) (slot s) (C_failed p))) as Hfail
        by (apply (consistent_phase s p); auto; now rewrite Hctl).
    destruct (conf_file_status w0); try (injection Hstep as <-; exact Hfail).
    destruct (global o) as [g|]; [|injection Hstep as <-; exact Hfail].
    destruct (aco_process_vars H opts vars g) as [g'|];
      injection Hstep as <-; [|exact Hfail].
    apply (consistent_write_pending s p o _ rc); auto; now rewrite Hctl.
  - (* setup_amqp writes the connection into it *)
    destruct (objects s p) as [[o rc]|] eqn:Hobj; [|discriminate].
    destruct (setup_amqp w0 (Some o)) as [[r [o'|]] evs]; [|discriminate].
    injection Hstep as <-.
    apply (consistent_write_pending s p o _ rc); auto;
      [now rewrite Hctl | destruct (r =? 0); reflexivity].
  - injection Hstep as <-. now apply consistent_install.
  - injection Hstep as <-. apply consistent_drop; [exact Hs | now rewrite Hctl].
  - injection Hstep as <-. apply consistent_drop; [exact Hs | now rewrite Hctl].
  - injection Hstep as <-. now apply consistent_unload.
Qed.

Lemma step_consistent (m : move) (s s' : system) :
  consistent s -> step H w cdr m s = Some s' -> consistent s'.
Proof.
  destruct m; cbn [step];
    solve [apply handler_step_consistent | apply other_step_consistent].
Qed.

(** What a read through the handler's reference finds, given that the
    reference leads to what was acquired. *)
Lemma read_global_view (h : heap) (conf : option addr)
      (acq : option cdr_amqp_conf) :
  content h conf = acq ->
  match read_global h conf with
  | None => True
  | Some (inl out) =>
      out = NullDereference /\
      (acq = None \/ exists o, acq = Some o /\ global o = None)
  | Some (inr g) => acq = Some (mkConf (Some g))
  end.
Proof.
  intros <-. destruct conf as [a|]; cbn; [|auto].
  destruct (h a) as [[[[g|]] rc]|]; cbn; eauto.
Qed.

Lemma whole_without_global (acq : option cdr_amqp_conf) (j : ast_json) :
  ast_json_pack H cdr_pack_format (cdr_pack_args H cdr) = Some j ->
  acq = None \/ (exists o, acq = Some o /\ global o = None) ->
  amqp_cdr_log H w (mkState [] acq false) cdr
  = (NullDereference, [EvJsonPack (Some j)]).
Proof.
  intros Hp Hacq. unfold amqp_cdr_log. rewrite Hp. cbn [confs].
  destruct Hacq as [-> | (o & -> & Hg)]; [reflexivity | now rewrite Hg].
Qed.

Lemma handler_step_progress (s s' : system) :
  consistent s -> progress H w cdr s ->
  handler_step H w cdr s = Some s' -> progress H w cdr s'.
Proof.
  intros [_ _ Hview] Hprog Hstep.
  unfold handler_step in Hstep. unfold progress in *.
  destruct (handler s) eqn:Hpc; cbn zeta in *.
  - injection Hstep as <-. exact Hprog.
  - destruct (ast_json_pack H cdr_pack_format (cdr_pack_args H cdr))
      as [j|] eqn:Hpack; injection Hstep as <-;
      cbn [set_handler handler handler_trace acquired]; rewrite Hprog.
    + split; reflexivity.
    + unfold amqp_cdr_log. rewrite Hpack. reflexivity.
  - destruct Hprog as [Hpack Htr].
    pose proof (read_global_view (objects s) conf (acquired s)
                  (Hview conf eq_refl)) as Hread.
    destruct (read_global (objects s) conf) as [[out|g]|]; [| |discriminate];
      injection Hstep as <-;
      cbn [set_handler handler handler_trace acquired]; rewrite Htr, Hpack.
    + destruct Hread as [-> Hacq]. now apply whole_without_global.
    + exists json, g. repeat split; assumption.
  - destruct Hprog as (j & g & Hpack & Hacq & Htr & ->).
    pose proof (read_global_view (objects s) conf (acquired s)
                  (Hview conf eq_refl)) as Hread.
    destruct (read_global (objects s) conf) as [[out|g']|]; [| |discriminate];
      injection Hstep as <-;
      cbn [set_handler handler handler_trace acquired].
    + destruct Hread as [_ [Hn | (o & Ho & Hg)]]; rewrite Hacq in *;
        [discriminate | injection Ho as <-; discriminate].
    + rewrite Hacq in Hread. injection Hread as <-.
      exists j, g. rewrite app_nil_r. repeat split; assumption.
  - destruct Hprog as (j & g & Hpack & Hacq & Htr & ->).
    destruct (ast_json_dump_string H (set_optional_fields H g cdr j))
      as [str|] eqn:Hdump; injection Hstep as <-;
      cbn [set_handler handler handler_trace acquired]; rewrite Htr.
    + exists j, g. repeat split; assumption.
    + unfold amqp_cdr_log. rewrite Hpack, Hacq. cbn [confs global].
      rewrite Hdump. reflexivity.
  - destruct Hprog as (j & g & Hd).
    pose proof (read_global_view (objects s) conf (acquired s)
                  (Hview conf eq_refl)) as Hread.
    destruct Hd as (Hpack & Hacq & Hdump & Htr).
    destruct (read_global (objects s) conf) as [[out|g']|]; [| |discriminate];
      injection Hstep as <-;
      cbn [set_handler handler handler_trace acquired].
    + destruct Hread as [_ [Hn | (o & Ho & Hg)]]; rewrite Hacq in *;
        [discriminate | injection Ho as <-; discriminate].
    + rewrite Hacq in Hread. injection Hread as <-.
      exists j, g. rewrite app_nil_r. repeat split; assumption.
  - destruct Hprog as (j & g & (Hpack & Hacq & Hdump & Htr) & Ha).
    pose proof (read_global_view (objects s) conf (acquired s)
                  (Hview conf eq_refl)) as Hread.
    destruct (read_global (objects s) conf) as [[out|g']|]; [| |discriminate];
      injection Hstep as <-;
      cbn [set_handler handler handler_trace acquired].
    + destruct Hread as [_ [Hn | (o & Ho & Hg)]]; rewrite Hacq in *;
        [discriminate | injection Ho as <-; discriminate].
    + rewrite Hacq in Hread. injection Hread as <-.
      exists j, g. rewrite app_nil_r. repeat split; assumption.
  - destruct Hprog as (j & g & (Hpack & Hacq & Hdump & Htr) & Ha & Hex).
    pose proof (read_global_view (objects s) conf (acquired s)
                  (Hview conf eq_refl)) as Hread.
    destruct (read_global (objects s) conf) as [[out|g']|]; [| |discriminate];
      injection Hstep as <-;
      cbn [set_handler handler handler_trace acquired].
    + destruct Hread as [_ [Hn | (o & Ho & Hg)]]; rewrite Hacq in *;
        [discriminate | injection Ho as <-; discriminate].
    + rewrite Hacq in Hread. injection Hread as <-.
      exists j, g. rewrite app_nil_r. repeat split; assumption.
  - destruct Hprog as (j & g & (Hpack & Hacq & Hdump & Htr) & -> & -> & ->).
    destruct (negb (ast_amqp_basic_publish w
                      (mkPublish (amqp g) (exchange g) (queue g) 0 0 props str)
                    =? 0)) eqn:Hres;
      injection Hstep as <-;
      cbn [set_handler handler handler_trace acquired];
      rewrite Htr; unfold amqp_cdr_log; rewrite Hpack, Hacq;
      cbn [confs global]; rewrite Hdump, Hres; reflexivity.
  - injection Hstep as <-.
    cbn [set_handler handler handler_trace acquired].
    now rewrite app_nil_r.
  - discriminate.
Qed.

Lemma other_step_handler (m : move) (s s' : system) :
  other_step H m s = Some s' ->
  handler s' = handler s /\ handler_trace s' = handler_trace s /\
  acquired s' = acquired s.
Proof.
  unfold other_step.
  destruct m; destruct (control s); try discriminate;
    repeat match goal with
           | |- context [match ?x with _ => _ end] => destruct x
           end;
    try discriminate; intros [= <-]; repeat split.
Qed.

Lemma step_progress (m : move) (s s' : system) :
  consistent s -> progress H w cdr s ->
  step H w cdr m s = Some s' -> progress H w cdr s'.
Proof.
  intros Hs Hprog Hstep.
  destruct m; cbn [step] in Hstep;
    try (now apply (handler_step_progress s));
    destruct (other_step_handler _ _ _ Hstep) as (Hh & Ht & Ha);
    unfold progress in *; rewrite Hh, Ht, Ha; exact Hprog.
Qed.

(** Once taken, what the handler acquired stays what it is. *)
Lemma step_acquired (m : move) (s s' : system) :
  handler s <> H_start -> step H w cdr m s = Some s' ->
  handler s' <> H_start /\ acquired s' = acquired s.
Proof.
  intros Hpc Hstep. destruct m; cbn [step] in Hstep;
    try (destruct (other_step_handler _ _ _ Hstep) as (Hh & _ & Ha);
         rewrite Hh; now split).
  unfold handler_step in Hstep.
  destruct (handler s); try contradiction;
    repeat match type of Hstep with
           | context [match ?x with _ => _ end] => destruct x
           end;
    try discriminate; injection Hstep as <-; split; try discriminate;
    reflexivity.
Qed.

Lemma run_invariant (schedule : list move) :
  forall s s',
    consistent s -> progress H w cdr s -> handler s <> H_start ->
    run H w cdr schedule s = Some s' ->
    consistent s' /\ progress H w cdr s' /\ acquired s' = acquired s.
Proof.
  induction schedule as [|m rest IH]; intros s s' Hs Hprog Hpc Hrun.
  - injection Hrun as <-. auto.
  - cbn [run] in Hrun. destruct (step H w cdr m s) as [s1|] eqn:Hstep;
      [|discriminate].
    destruct (step_acquired m s s1 Hpc Hstep) as [Hpc1 Ha1].
    destruct (IH s1 s' (step_consistent m s s1 Hs Hstep)
                 (step_progress m s s1 Hs Hprog Hstep) Hpc1 Hrun)
      as (Hc & Hp & Ha).
    split; [exact Hc | split; [exact Hp | congruence]].
Qed.

(** The handler is never stuck: what it holds a reference to is alive. *)
Lemma handler_not_stuck (s : system) :
  consistent s -> handler_rank (handler s) <> 0%nat ->
  exists s', handler_step H w cdr s = Some s' /\
             (handler_rank (handler s') < handler_rank (handler s))%nat.
Proof.
  intros [Hcnt _ _] Hrank.
  assert (forall conf, handler_conf (handler s) = Some conf ->
                       read_global (objects s) conf <> None) as Hlive.
  { intros [a|] Hc; cbn; [|discriminate].
    specialize (Hcnt a). unfold holders in Hcnt.
    rewrite (handler_refers_conf _ _ a Hc), refers_same in Hcnt.
    unfold rc_at in Hcnt.
    destruct (objects s a) as [[o rc]|]; [destruct (global o); discriminate | lia]. }
  unfold handler_step.
  destruct (handler s) eqn:Hpc; cbn [handler_rank] in *;
    try (specialize (Hlive conf eq_refl));
    try (destruct (read_global (objects s) conf) as [[out|g]|];
         [| |contradiction]);
    repeat match goal with
           | |- context [match ?x with _ => _ end] => destruct x
           end;
    try (eexists; split; [reflexivity | cbn; lia]).
  contradiction.
Qed.

(** C9.  Snapshot consistency: a handler call that takes its reference to
    [confs] in state [s0], run to its end under any schedule of reloads,
    unloads and other handlers stepping in between its own steps, ends with
    the outcome and the trace (document, exchange, routing key, connection)
    of [amqp_cdr_log] run in one piece on what [confs] held in [s0]; and at
    every point on the way its reference still leads to that object,
    unchanged. *)
Theorem snapshot_consistency (schedule : list move) (s0 s : system) :
  consistent s0 -> handler s0 = H_start -> handler_trace s0 = [] ->
  run H w cdr (MHandler :: schedule) s0 = Some s ->
  (forall c, handler_conf (handler s) = Some c ->
             content (objects s) c = content (objects s0) (slot s0)) /\
  (forall out, handler s = H_done out ->
     (out, handler_trace s)
     = amqp_cdr_log H w (mkState [] (content (objects s0) (slot s0)) false) cdr).
Proof.
  intros Hs Hpc Htr Hrun. cbn [run step] in Hrun.
  unfold handler_step in Hrun. rewrite Hpc in Hrun.
  pose proof (consistent_acquire s0 Hs Hpc) as Hs1.
  match type of Hrun with run _ _ _ _ ?s1 = _ => set (s1' := s1) in * end.
  assert (progress H w cdr s1') as Hp1 by exact Htr.
  destruct (run_invariant schedule s1' s Hs1 Hp1) as (Hc & Hp & Ha);
    [discriminate | exact Hrun |].
  change (acquired s1') with (content (objects s0) (slot s0)) in Ha.
  split.
  - intros c Hcf. rewrite <- Ha. now apply (handler_view s Hc).
  - intros out Hdone. unfold progress in Hp. rewrite Hdone in Hp.
    cbn zeta in Hp. rewrite <- Ha. symmetry. exact Hp.
Qed.

End Interleaving.

Lemma serving_consistent (conf : cdr_amqp_conf) : consistent (serving conf).
Proof.
  constructor; unfold serving, holders, handler_refers, rc_at;
    cbn [objects slot handler control others acquired handler_conf pending
         unpublished refers].
  - intros x. rewrite (Nat.eqb_sym 0 x). destruct (Nat.eqb x 0); lia.
  - intros p [=].
  - intros c [=].
Qed.

(** C9, on a run: the handler has taken its reference and packed [alice]
    when a reload allocates, fills, checks and installs a configuration with
    another queue, no flags and connection 8; the handler goes on and
    publishes as the configuration it took says. *)
Lemma snapshot_consistency_example :
  let w' := TestHost.world_handing 8%nat
              (CONFIG_LOADED [("connection", "bunny"); ("queue", "elsewhere")]) in
  let schedule :=
    [MHandler; MBegin w' registered_options 1%nat; MFill w' registered_options;
     MHandler; MSetup w'; MInstall; MDrop;
     MHandler; MHandler; MHandler; MHandler; MHandler; MHandler; MHandler] in
  let s0 := serving (mkConf (Some TestHost.both_flags)) in
  exists s,
    run TestHost.host TestHost.quiet TestHost.alice (MHandler :: schedule) s0
    = Some s /\
    handler s = H_done (Returned 0) /\
    content (objects s) (slot s)
    = Some (mkConf (Some (mkGlobal "bunny" "elsewhere" EmptyString 0 0
                                   (Some 8%nat)))) /\
    ((forall c, handler_conf (handler s) = Some c ->
                content (objects s) c = content (objects s0) (slot s0)) /\
     (forall out, handler s = H_done out ->
        (out, handler_trace s)
        = amqp_cdr_log TestHost.host TestHost.quiet
            (mkState [] (content (objects s0) (slot s0)) false)
            TestHost.alice)).
Proof.
  cbv zeta. eexists.
  split; [vm_compute; reflexivity|].
  split; [reflexivity|]. split; [reflexivity|].
  apply (snapshot_consistency TestHost.host TestHost.quiet TestHost.alice
           [MHandler;
            MBegin (TestHost.world_handing 8%nat
                      (CONFIG_LOADED [("connection", "bunny");
                                      ("queue", "elsewhere")]))
                   registered_options 1%nat;
            MFill (TestHost.world_handing 8%nat
                     (CONFIG_LOADED [("connection", "bunny");
                                     ("queue", "elsewhere")]))
                  registered_options;
            MHandler;
            MSetup (TestHost.world_handing 8%nat
                      (CONFIG_LOADED [("connection", "bunny");
                                      ("queue", "elsewhere")]));
            MInstall; MDrop;
            MHandler; MHandler; MHandler; MHandler; MHandler; MHandler; MHandler]
           (serving (mkConf (Some TestHost.both_flags))));
    [apply serving_consistent | reflexivity | reflexivity
     | vm_compute; reflexivity].
Defined.


(** * More of the module *)

(** ** The handler's document, body and log *)

Section HandlerMore.
Variable H : Host.

(** The pack call returns an object only for a record that can be packed. *)
Lemma cdr_pack_accepts (cdr : ast_cdr) (j : ast_json) :
  ast_json_pack H cdr_pack_format (cdr_pack_args H cdr) = Some j ->
  cdr_packable H cdr.
Proof.
  unfold ast_json_pack, cdr_packable.
  let t := eval vm_compute in (pack_tokens cdr_pack_format) in
  change (pack_tokens cdr_pack_format) with t.
  unfold cdr_pack_args, required_keys, cdr_texts.
  cbn [Ascii.eqb Bool.eqb app].
  destruct (ast_json_timeval H (start cdr)) as [s|];
  destruct (ast_json_timeval H (answer cdr)) as [a|];
  destruct (ast_json_timeval H (end_ cdr)) as [e|];
  cbn [pack_members pack_value Ascii.eqb Bool.eqb andb];
  repeat match goal with
         | |- context [if utf8_check_string H ?x then _ else _] =>
             let E := fresh "E" in
             destruct (utf8_check_string H x) eqn:E;
             cbn [pack_members pack_value Ascii.eqb Bool.eqb andb];
             try discriminate
         end;
  try discriminate.
  intros _. split; [|repeat split; discriminate].
  repeat (constructor; [assumption|]). constructor.
Qed.


Lemma cdr_packable_packs (cdr : ast_cdr) :
  cdr_packable H cdr ->
  exists j, ast_json_pack H cdr_pack_format (cdr_pack_args H cdr) = Some j.
Proof.
  intros (Hall & Hs & Ha & He).
  destruct (ast_json_timeval H (start cdr)) as [s|] eqn:Es; [|contradiction].
  destruct (ast_json_timeval H (answer cdr)) as [a|] eqn:Ea; [|contradiction].
  destruct (ast_json_timeval H (end_ cdr)) as [e|] eqn:Ee; [|contradiction].
  eexists. apply (cdr_pack_total H cdr s a e); assumption.
Qed.





(** X4.  What the handler logs: nothing when it returns 0, nothing when the
    pack fails (that failure is silent), and exactly one line, at error
    level, when it returns -1 after a successful pack, that is when the dump
    or the publish call failed. *)
Theorem handler_log_lines
        (w : world) (st : module_state) (cdr : ast_cdr) :
  let out := fst (amqp_cdr_log H w st cdr) in
  let evs := snd (amqp_cdr_log H w st cdr) in
  let packed := ast_json_pack H cdr_pack_format (cdr_pack_args H cdr) in
  (out = Returned 0 -> log_lines evs = []) /\
  (packed = None -> log_lines evs = []) /\
  (out = Returned (-1) -> packed <> None ->
   exists msg, log_lines evs = [EvLog LOG_ERROR msg]) /\
  (log_lines evs <> [] -> out = Returned (-1) /\ packed <> None).
Proof.
  cbv zeta. unfold amqp_cdr_log.
  destruct (ast_json_pack H cdr_pack_format (cdr_pack_args H cdr))
    as [packed|] eqn:Hpack;
    [ destruct (confs st) as [[[g|]]|]; cbn [global];
      [ destruct (ast_json_dump_string H (set_optional_fields H g cdr packed))
          as [str|]; [destruct (negb (ast_amqp_basic_publish w _ =? 0))|]
      | | ]
    | ];
    cbn; repeat split; intros; repeat split;
    try discriminate; try congruence; try (eexists; reflexivity);
    match goal with
    | Hne : ?x <> ?x |- _ => contradiction Hne; reflexivity
    end.
Qed.

End HandlerMore.

(** ** Loading, reloading and unloading *)

Section LoaderMore.
Variable H : Host.

(** The pending object [conf_alloc] builds from the registered options. *)
Lemma conf_alloc_registered (w : world) (conf : cdr_amqp_conf) :
  conf_alloc H w registered_options = Some conf ->
  conf = mkConf (Some (mkGlobal EmptyString "asterisk_cdr" EmptyString
                                (ast_true H "no") (ast_true H "no") None)).
Proof.
  unfold conf_alloc, conf_global_create.
  destruct (alloc_ok w); [|discriminate].
  cbv [registered_options register_options aco_option_register cfg_options
       unloaded app].
  cbn [aco_set_defaults opt_default String.eqb Ascii.eqb Bool.eqb
       aco_handle opt_type opt_field opt_flags set_int_field
       set_string_field Z.eqb].
  intros [= <-]. reflexivity.
Qed.

(** What a load or reload can do: install a freshly built configuration
    and return 0, or leave the module as it was. *)
Lemma load_config_cases (w : world) (st : module_state) (reload : bool) :
  let '(r, st', evs) := load_config H w st reload in
  (r = 0 /\
   exists g0 vars g a,
     conf_alloc H w (cfg_options st) = Some (mkConf (Some g0)) /\
     conf_file_status w = CONFIG_LOADED vars /\
     aco_process_vars H (cfg_options st) vars g0 = Some g /\
     ast_amqp_get_connection w (connection g) = Some a /\
     evs = [EvGetConnection (connection g)] /\
     st' = mkState (cfg_options st)
                   (Some (mkConf (Some (set_amqp (Some a) g))))
                   (cdr_registered st))
  \/ (st' = st /\ (r = 0 \/ r = -1) /\
      (r = 0 -> exists conf g, confs st = Some conf /\ global conf = Some g) /\
      (r = 0 -> evs = [] /\
                conf_file_status w = CONFIG_STATUS_FILEUNCHANGED) /\
      (length (connection_requests evs) <= 1)%nat /\
      (forall name, In name (connection_requests evs) ->
         exists g0 vars g,
           conf_alloc H w (cfg_options st) = Some (mkConf (Some g0)) /\
           conf_file_status w = CONFIG_LOADED vars /\
           aco_process_vars H (cfg_options st) vars g0 = Some g /\
           name = connection g)).
Proof.
  unfold load_config, aco_process_config.
  destruct (conf_alloc H w (cfg_options st)) as [[[g0|]]|] eqn:Ealloc;
    cbn [global].
  - destruct (conf_file_status w) as [| |vars] eqn:Efile.
    + right. cbn. repeat split; auto; try discriminate; try lia; try contradiction.
    + destruct (confs st) as [[[g|]]|] eqn:Hc; cbn; right;
        repeat split; auto; try discriminate; try lia; try contradiction;
        try (intros _; eexists; eexists; split; reflexivity).
    + destruct (aco_process_vars H (cfg_options st) vars g0) as [g|] eqn:Evars.
      * unfold setup_amqp; cbn [global].
        destruct (ast_amqp_get_connection w (connection g)) as [a|] eqn:Econn.
        -- left. split; [reflexivity|]. exists g0, vars, g, a. repeat split; assumption.
        -- right. cbn. repeat split; auto; try discriminate; try lia.
           intros name [<-|[]]. exists g0, vars, g. auto.
      * right. cbn. repeat split; auto; try discriminate; try lia; try contradiction.
  - destruct (conf_file_status w) as [| |vars] eqn:Efile.
    + right. cbn. repeat split; auto; try discriminate; try lia; try contradiction.
    + destruct (confs st) as [[[g|]]|] eqn:Hc; cbn; right;
        repeat split; auto; try discriminate; try lia; try contradiction;
        try (intros _; eexists; eexists; split; reflexivity).
    + right. cbn. repeat split; auto; try discriminate; try lia; try contradiction.
  - right. cbn. repeat split; auto; try discriminate; try lia; try contradiction.
Qed.

Lemma load_config_never_invalid (w : world) (st : module_state) (reload : bool) :
  ~ In (EvLog LOG_ERROR "Invalid cdr_amqp.conf")
       (snd (load_config H w st reload)).
Proof.
  unfold load_config, aco_process_config, conf_alloc, conf_global_create.
  destruct (alloc_ok w); cbn [global].
  - destruct (conf_file_status w) as [| |vars].
    + cbn. intros [].
    + destruct (confs st) as [[[?|]]|]; cbn; intros Hin;
        repeat (destruct Hin as [Hin|Hin]; [discriminate|]); contradiction.
    + destruct (aco_process_vars H (cfg_options st) vars _) as [g|];
        [|cbn; intros []].
      unfold setup_amqp; cbn [global].
      destruct (ast_amqp_get_connection w (connection g)); cbn; intros Hin;
        repeat (destruct Hin as [Hin|Hin]; [discriminate|]); contradiction.
  - cbn. intros [].
Qed.

(** X5.  What a load or reload does to the module, whatever the file and
    the broker side: it returns 0 or -1; after a 0 a configuration with its
    [global] part is installed; it never removes an installed configuration
    and never touches the registered options or the registration of the
    handler; when it does not return 0 the module is exactly as before; it
    asks [res_amqp] for a connection at most once; and the "Invalid
    cdr_amqp.conf" branch of [setup_amqp] is never taken, since [conf_alloc]
    gives no configuration without its [global] part. *)
Theorem load_config_outcome (w : world) (st : module_state) (reload : bool) :
  let '(r, st', evs) := load_config H w st reload in
  (r = 0 \/ r = -1) /\
  (r = 0 -> exists conf g, confs st' = Some conf /\ global conf = Some g) /\
  (r <> 0 -> st' = st) /\
  cfg_options st' = cfg_options st /\
  cdr_registered st' = cdr_registered st /\
  (confs st <> None -> confs st' <> None) /\
  (length (connection_requests evs) <= 1)%nat /\
  ~ In (EvLog LOG_ERROR "Invalid cdr_amqp.conf") evs.
Proof.
  pose proof (load_config_cases w st reload) as Hc.
  pose proof (load_config_never_invalid w st reload) as Hinv.
  destruct (load_config H w st reload) as [[r st'] evs]. cbn [snd] in Hinv.
  destruct Hc as [[-> (g0 & vars & g & a & _ & _ & _ & _ & -> & ->)]
                 | (-> & Hr & Hinst & _ & Hreq & _)].
  - cbv beta iota.
    split; [left; reflexivity|]. split; [intros _; cbn; do 2 eexists; split; reflexivity|].
    split; [intros Hne; contradiction Hne; reflexivity|].
    split; [reflexivity|]. split; [reflexivity|].
    split; [intros _; discriminate|]. split; [cbn; lia | exact Hinv].
  - cbv beta iota.
    split; [exact Hr|]. split; [exact Hinst|].
    split; [reflexivity|]. split; [reflexivity|]. split; [reflexivity|].
    split; [trivial|]. split; [exact Hreq | exact Hinv].
Qed.

(** X6.  Which connection a load asks for, with the options as
    [load_module] registers them: the one named by the last [connection]
    line of the file, and the one with the empty name when the file has no
    such line.  The load returns 0 only if [res_amqp] has that connection,
    the installed configuration then holds it together with the file's
    exchange and queue (or their defaults); without it the load returns -1
    and changes nothing. *)
Theorem load_asks_for_the_configured_connection
        (w : world) (st : module_state) (reload : bool)
        (vars : list (string * string)) :
  cfg_options st = registered_options ->
  conf_file_status w = CONFIG_LOADED vars ->
  let name := or_default (explicit_value "connection" vars) EmptyString in
  let '(r, st', evs) := load_config H w st reload in
  (forall n, In n (connection_requests evs) -> n = name) /\
  (r = 0 ->
   evs = [EvGetConnection name] /\
   exists g a,
     ast_amqp_get_connection w name = Some a /\
     confs st' = Some (mkConf (Some g)) /\
     connection g = name /\ amqp g = Some a /\
     exchange g = or_default (explicit_value "exchange" vars) EmptyString /\
     queue g = or_default (explicit_value "queue" vars) "asterisk_cdr") /\
  (ast_amqp_get_connection w name = None -> r = -1 /\ st' = st).
Proof.
  intros Hopts Hfile. cbv zeta.
  pose proof (load_config_cases w st reload) as Hc.
  destruct (load_config H w st reload) as [[r st'] evs].
  rewrite Hopts, Hfile in Hc.
  assert (forall g0 vars' g,
             conf_alloc H w registered_options = Some (mkConf (Some g0)) ->
             CONFIG_LOADED vars = CONFIG_LOADED vars' ->
             aco_process_vars H registered_options vars' g0 = Some g ->
             connection g
             = or_default (explicit_value "connection" vars) EmptyString /\
             exchange g
             = or_default (explicit_value "exchange" vars) EmptyString /\
             queue g = or_default (explicit_value "queue" vars) "asterisk_cdr")
    as Hfields.
  { intros g0 vars' g Ha [= <-] Hv.
    apply conf_alloc_registered in Ha. injection Ha as ->.
    destruct (aco_process_vars_fields H vars _ _ Hv) as (Hc' & Hq & He & _).
    cbn in Hc', Hq, He. auto. }
  destruct Hc as [[-> (g0 & vars' & g & a & Ha & Hf & Hv & Hconn & -> & ->)]
                 | (-> & Hr & _ & Hun & _ & Hnames)].
  - destruct (Hfields g0 vars' g Ha Hf Hv) as (Hc' & He & Hq).
    rewrite Hc' in *. cbv beta iota. split; [|split].
    + intros n [<-|[]]. reflexivity.
    + intros _. split; [reflexivity|].
      exists (set_amqp (Some a) g), a. cbn. auto 7.
    + intros Hnone. rewrite Hnone in Hconn. discriminate.
  - cbv beta iota. split; [|split].
    + intros n Hn. destruct (Hnames n Hn) as (g0 & vars' & g & Ha & Hf & Hv & ->).
      now destruct (Hfields g0 vars' g Ha Hf Hv).
    + intros ->. destruct (Hun eq_refl) as [_ Hu]. discriminate.
    + intros _. split; [|reflexivity].
      destruct Hr as [-> | ->]; [|reflexivity].
      destruct (Hun eq_refl) as [_ Hu]. discriminate.
Qed.

(** The two ways [load_module] ends. *)
Lemma load_module_cases (w : world) (st : module_state) :
  let '(r, st', evs) := load_module H w st in
  (r = AST_MODULE_LOAD_SUCCESS /\
   cdr_registered st' = true /\
   (exists conf g, confs st' = Some conf /\ global conf = Some g) /\
   aco_info_init w = 0 /\ ast_cdr_register w = 0)
  \/ ((r = AST_MODULE_LOAD_DECLINE \/ r = AST_MODULE_LOAD_FAILURE) /\
      cdr_registered st' = cdr_registered st /\
      (confs st <> None -> confs st' <> None) /\
      (r = AST_MODULE_LOAD_DECLINE ->
       confs st' = confs st /\ aco_info_init w = 0 /\
       cfg_options st' = cfg_options (register_options st)) /\
      (aco_info_init w <> 0 ->
       r = AST_MODULE_LOAD_FAILURE /\ st' = aco_info_destroy st /\
       connection_requests evs = [])).
Proof.
  unfold AST_MODULE_LOAD_SUCCESS, AST_MODULE_LOAD_DECLINE,
    AST_MODULE_LOAD_FAILURE, load_module.
  destruct (Z.eqb_spec (aco_info_init w) 0) as [Hinit|Hinit]; cbn [negb].
  2:{ right. cbn. repeat split; auto; try discriminate. }
  pose proof (load_config_cases w (register_options st) false) as Hc.
  destruct (load_config H w (register_options st) false) as [[r st1] evs].
  assert (confs (register_options st) = confs st) as Hsame by reflexivity.
  assert (cdr_registered (register_options st) = cdr_registered st) as Hreg
      by reflexivity.
  destruct Hc as [[-> (g0 & vars & g & a & _ & _ & _ & _ & -> & ->)]
                 | (-> & Hr & Hinst & _ & _ & _)].
  - cbn [Z.eqb negb].
    destruct (Z.eqb_spec (ast_cdr_register w) 0) as [Hregd|Hregd]; cbn [negb].
    + left. cbn. repeat split; auto. do 2 eexists; split; reflexivity.
    + right. cbn. repeat split; auto; try discriminate; try contradiction.
  - destruct Hr as [-> | ->]; cbn [Z.eqb negb].
    + destruct (Hinst eq_refl) as (conf & g & Hconf & Hg).
      destruct (Z.eqb_spec (ast_cdr_register w) 0) as [Hregd|Hregd]; cbn [negb].
      * left. cbn. repeat split; auto; exists conf, g; auto.
      * right. cbn. repeat split; auto; try discriminate; try contradiction.
    + right. cbn. repeat split; auto; try contradiction.
Qed.

(** X7.  How [load_module] ends.  It returns success only after the
    framework initialised, a configuration with its [global] part was
    installed and the host accepted the handler, and only then is the
    handler registered; a decline (the configuration did not load) leaves
    the configuration as it was but keeps the five options registered; a
    failed registration leaves the configuration it has just installed in
    place; no outcome removes an installed configuration. *)
Theorem load_module_outcome (w : world) (st : module_state) :
  let '(r, st', evs) := load_module H w st in
  (r = AST_MODULE_LOAD_SUCCESS \/ r = AST_MODULE_LOAD_DECLINE
   \/ r = AST_MODULE_LOAD_FAILURE) /\
  (r = AST_MODULE_LOAD_SUCCESS ->
   cdr_registered st' = true /\
   (exists conf g, confs st' = Some conf /\ global conf = Some g) /\
   aco_info_init w = 0 /\ ast_cdr_register w = 0) /\
  (r <> AST_MODULE_LOAD_SUCCESS -> cdr_registered st' = cdr_registered st) /\
  (r = AST_MODULE_LOAD_DECLINE ->
   confs st' = confs st /\
   cfg_options st' = cfg_options (register_options st)) /\
  (r = AST_MODULE_LOAD_FAILURE -> aco_info_init w = 0 ->
   ast_cdr_register w <> 0 /\
   exists conf g, confs st' = Some conf /\ global conf = Some g) /\
  (confs st <> None -> confs st' <> None).
Proof.
  pose proof (load_module_cases w st) as Hc.
  assert (let '(r, st', _) := load_module H w st in
          r = AST_MODULE_LOAD_FAILURE -> aco_info_init w = 0 ->
          ast_cdr_register w <> 0 /\
          exists conf g, confs st' = Some conf /\ global conf = Some g) as Hf.
  { unfold AST_MODULE_LOAD_SUCCESS, AST_MODULE_LOAD_DECLINE,
      AST_MODULE_LOAD_FAILURE, load_module.
    destruct (Z.eqb_spec (aco_info_init w) 0) as [Hinit|Hinit]; cbn [negb];
      [|intros _ Hz; contradiction].
    pose proof (load_config_cases w (register_options st) false) as Hl.
    destruct (load_config H w (register_options st) false) as [[r st1] evs].
    destruct (Z.eqb_spec r 0) as [->|Hr]; cbn [negb]; [|discriminate].
    destruct (Z.eqb_spec (ast_cdr_register w) 0) as [Hregd|Hregd]; cbn [negb];
      [discriminate|].
    intros _ _. split; [exact Hregd|].
    destruct Hl as [[_ (g0 & vars & g & a & _ & _ & _ & _ & _ & ->)]
                   | (-> & _ & Hinst & _)];
      [cbn; do 2 eexists; split; reflexivity | apply Hinst; reflexivity]. }
  unfold AST_MODULE_LOAD_SUCCESS, AST_MODULE_LOAD_DECLINE,
    AST_MODULE_LOAD_FAILURE in *.
  destruct (load_module H w st) as [[r st'] evs].
  destruct Hc as [(-> & Hreg & Hinst & Hi & Hr)
                 | (Hr & Hreg & Hkeep & Hdecl & Hinit)].
  - split; [left; reflexivity|]. split; [auto|].
    split; [intros Hne; contradiction Hne; reflexivity|].
    split; [discriminate|]. split; [discriminate|].
    destruct Hinst as (conf & g & -> & _). discriminate.
  - split; [right; exact Hr|].
    split; [intros ->; destruct Hr; discriminate|].
    split; [auto|]. split; [intros Hd; now destruct (Hdecl Hd) as (? & _ & ?)|].
    split; [exact Hf | exact Hkeep].
Qed.

(** Every publish call is built from the configuration read at the call. *)
Lemma publish_call_shape (w : world) (st : module_state) (cdr : ast_cdr)
      (call : publish_call) :
  In (EvPublish call) (snd (amqp_cdr_log H w st cdr)) ->
  exists g str,
    confs st = Some (mkConf (Some g)) /\
    call = mkPublish (amqp g) (exchange g) (queue g) 0 0 props str.
Proof.
  unfold amqp_cdr_log.
  destruct (ast_json_pack H cdr_pack_format (cdr_pack_args H cdr))
    as [packed|].
  2:{ cbn. intros [Hin|[]]; discriminate. }
  destruct (confs st) as [[[g|]]|]; cbn [global];
    try (cbn; intros [Hin|[]]; discriminate).
  destruct (ast_json_dump_string H (set_optional_fields H g cdr packed))
    as [str|]; [destruct (negb (ast_amqp_basic_publish w _ =? 0))|];
    cbn; intros Hin;
    repeat (destruct Hin as [Hin|Hin]; try discriminate; try contradiction);
    injection Hin as <-; exists g, str; split; reflexivity.
Qed.

Lemma registered_fields (w : world) (vars : list (string * string))
      (g0 g : cdr_amqp_global_conf) :
  conf_alloc H w registered_options = Some (mkConf (Some g0)) ->
  aco_process_vars H registered_options vars g0 = Some g ->
  connection g = or_default (explicit_value "connection" vars) EmptyString /\
  exchange g = or_default (explicit_value "exchange" vars) EmptyString /\
  queue g = or_default (explicit_value "queue" vars) "asterisk_cdr".
Proof.
  intros Ha Hv. apply conf_alloc_registered in Ha. injection Ha as ->.
  destruct (aco_process_vars_fields H vars _ _ Hv) as (Hc' & Hq & He & _).
  cbn in Hc', Hq, He. auto.
Qed.

(** X8.  From the file to the wire: after [load_module] has succeeded on
    the unloaded module, every publish call of the handler goes to the
    exchange and the routing key of the file's last [exchange] and [queue]
    lines (the default exchange and [asterisk_cdr] without such lines),
    over the connection [res_amqp] handed out at load time for the file's
    [connection] name. *)
Theorem publish_follows_the_file
        (w : world) (vars : list (string * string)) :
  conf_file_status w = CONFIG_LOADED vars ->
  let '(r, st', _) := load_module H w unloaded in
  r = AST_MODULE_LOAD_SUCCESS ->
  forall (w2 : world) (cdr : ast_cdr) (call : publish_call),
    In (EvPublish call) (snd (amqp_cdr_log H w2 st' cdr)) ->
    p_exchange call = or_default (explicit_value "exchange" vars) EmptyString /\
    p_routing_key call = or_default (explicit_value "queue" vars) "asterisk_cdr" /\
    exists a,
      p_cxn call = Some a /\
      ast_amqp_get_connection w
        (or_default (explicit_value "connection" vars) EmptyString) = Some a.
Proof.
  intros Hfile.
  unfold AST_MODULE_LOAD_SUCCESS, AST_MODULE_LOAD_DECLINE,
    AST_MODULE_LOAD_FAILURE, load_module.
  destruct (negb (aco_info_init w =? 0)); [discriminate|].
  pose proof (load_config_cases w (register_options unloaded) false) as Hc.
  destruct (load_config H w (register_options unloaded) false) as [[r st1] evs].
  change (cfg_options (register_options unloaded)) with registered_options in Hc.
  rewrite Hfile in Hc.
  destruct Hc as [[-> (g0 & vars' & g & a & Ha & Hf & Hv & Hconn & -> & ->)]
                 | (-> & Hr & Hinst & Hun & _)].
  - injection Hf as <-.
    destruct (registered_fields w vars g0 g Ha Hv) as (Hc' & He & Hq).
    cbn [Z.eqb negb].
    destruct (negb (ast_cdr_register w =? 0)); [discriminate|].
    intros _ w2 cdr call Hin.
    destruct (publish_call_shape w2 _ cdr call Hin) as (g' & str & Hg' & ->).
    cbn in Hg'. injection Hg' as <-. cbn.
    split; [exact He|]. split; [exact Hq|].
    exists a. split; [reflexivity|]. now rewrite <- Hc'.
  - destruct Hr as [-> | ->]; cbn [Z.eqb negb]; [|discriminate].
    destruct (Hun eq_refl) as [_ Hu]. discriminate.
Qed.

(** X13.  From the file to the document: after [load_module] has succeeded
    on the unloaded module, a dumped document has the eighteen packed keys,
    then [uniqueid] exactly when the file's last [loguniqueid] line (or the
    default text [no] without one) reads true for [ast_true] and the text is
    taken, then [userfield] likewise for [loguserfield]. *)
Theorem optional_fields_follow_the_file
        (w : world) (vars : list (string * string)) :
  conf_file_status w = CONFIG_LOADED vars ->
  let '(r, st', _) := load_module H w unloaded in
  r = AST_MODULE_LOAD_SUCCESS ->
  forall (w2 : world) (cdr : ast_cdr) (doc : object),
    In (EvJsonDump (JObject doc)) (snd (amqp_cdr_log H w2 st' cdr)) ->
    keys doc
    = (required_keys
       ++ keys (optional_member H
                  (ast_true H (or_default (explicit_value "loguniqueid" vars) "no"))
                  "uniqueid" (uniqueid cdr))
       ++ keys (optional_member H
                  (ast_true H (or_default (explicit_value "loguserfield" vars) "no"))
                  "userfield" (userfield cdr)))%list.
Proof.
  intros Hfile.
  unfold AST_MODULE_LOAD_SUCCESS, AST_MODULE_LOAD_DECLINE,
    AST_MODULE_LOAD_FAILURE, load_module.
  destruct (negb (aco_info_init w =? 0)); [discriminate|].
  pose proof (load_config_cases w (register_options unloaded) false) as Hc.
  destruct (load_config H w (register_options unloaded) false) as [[r st1] evs].
  change (cfg_options (register_options unloaded)) with registered_options in Hc.
  rewrite Hfile in Hc.
  destruct Hc as [[-> (g0 & vars' & g & a & Ha & Hf & Hv & Hconn & -> & ->)]
                 | (-> & Hr & Hinst & Hun & _)].
  - injection Hf as <-.
    apply conf_alloc_registered in Ha. injection Ha as ->.
    destruct (aco_process_vars_fields H vars _ _ Hv) as (_ & _ & _ & Hu & Hf & _).
    cbn [loguniqueid loguserfield] in Hu, Hf.
    cbn [Z.eqb negb].
    destruct (negb (ast_cdr_register w =? 0)); [discriminate|].
    intros _ w2 cdr doc Hin.
    destruct (dumped_document H w2 _ cdr _ Hin)
      as (conf & g' & s & a' & e & Hc & Hg & _ & Hdoc).
    cbn in Hc. injection Hc as <-. cbn in Hg. injection Hg as <-.
    injection Hdoc as ->. cbn [set_amqp loguniqueid loguserfield].
    rewrite Hu, Hf. unfold keys, required_keys. cbn [map fst app].
    rewrite map_app.
    destruct (explicit_value "loguniqueid" vars),
             (explicit_value "loguserfield" vars); reflexivity.
  - destruct Hr as [-> | ->]; cbn [Z.eqb negb]; [|discriminate].
    destruct (Hun eq_refl) as [_ Hu]. discriminate.
Qed.

Lemma running_invariant (st : module_state) :
  running H st ->
  handle_present st /\ (cdr_registered st = true -> confs st <> None).
Proof.
  induction 1 as [| w st _ [IHp IHr] | w st _ [IHp IHr]].
  - split; [intros conf; discriminate | discriminate].
  - split; [now apply load_module_handle_present|].
    pose proof (load_module_cases w st) as Hc.
    destruct (load_module H w st) as [[r st'] evs]. cbn [fst snd].
    destruct Hc as [(_ & _ & (conf & g & -> & _) & _)
                   | (_ & Hreg & Hkeep & _)]; [discriminate|].
    rewrite Hreg. auto.
  - split; [now apply load_config_handle_present|].
    pose proof (load_config_cases w st true) as Hc. unfold reload_module.
    destruct (load_config H w st true) as [[r st'] evs]. cbn [fst snd].
    destruct Hc as [[_ (g0 & vars & g & a & _ & _ & _ & _ & _ & ->)]
                   | (-> & _)]; [discriminate | exact IHr].
Qed.

(** X9.  As long as the module is only loaded and reloaded, never unloaded,
    a registered handler always finds a configuration with a connection:
    every call returns 0 or -1, never reads through a NULL pointer, and
    every publish call it makes carries a connection. *)
Theorem running_handler_always_returns (st : module_state) :
  running H st -> cdr_registered st = true ->
  (exists g a, ao2_global_obj_ref st = Some (mkConf (Some g)) /\
               amqp g = Some a) /\
  forall (w : world) (cdr : ast_cdr),
    (fst (amqp_cdr_log H w st cdr) = Returned 0
     \/ fst (amqp_cdr_log H w st cdr) = Returned (-1)) /\
    forall call, In (EvPublish call) (snd (amqp_cdr_log H w st cdr)) ->
                 p_cxn call <> None.
Proof.
  intros Hrun Hreg. destruct (running_invariant st Hrun) as [Hp Hr].
  specialize (Hr Hreg). unfold ao2_global_obj_ref.
  destruct (confs st) as [conf|] eqn:Hconf; [|contradiction Hr; reflexivity].
  destruct (Hp conf Hconf) as (g & a & Hg & Ha).
  destruct conf as [og]. cbn in Hg. subst og.
  split; [exists g, a; auto|].
  intros w cdr. split.
  - unfold amqp_cdr_log. rewrite Hconf. cbn [global].
    destruct (ast_json_pack H cdr_pack_format (cdr_pack_args H cdr)) as [j|];
      [|right; reflexivity].
    destruct (ast_json_dump_string H (set_optional_fields H g cdr j));
      [destruct (negb (ast_amqp_basic_publish w _ =? 0))|]; cbn; auto.
  - intros call Hin.
    destruct (publish_call_shape w st cdr call Hin) as (g' & str & Hg' & ->).
    rewrite Hconf in Hg'. injection Hg' as <-. cbn. rewrite Ha. discriminate.
Qed.

End LoaderMore.

(** X10.  What [unload_module] does, whatever the host answers: the
    options are gone and [confs] is released before the handler is
    unregistered; it returns 0 and the handler is unregistered exactly when
    the host accepts, and otherwise returns -1 with the handler still
    registered as before; doing it again changes nothing more.  A handler
    call on a record that packs then reads through the NULL
    configuration. *)
Theorem unload_module_outcome (w : world) (st : module_state) :
  let '(r, st') := unload_module w st in
  ao2_global_obj_ref st' = None /\ cfg_options st' = [] /\
  (r = 0 /\ ast_cdr_unregister w = 0 /\ cdr_registered st' = false
   \/ r = -1 /\ ast_cdr_unregister w <> 0
      /\ cdr_registered st' = cdr_registered st) /\
  unload_module w st' = (r, st') /\
  forall (H : Host) (w2 : world) (cdr : ast_cdr),
    cdr_packable H cdr ->
    fst (amqp_cdr_log H w2 st' cdr) = NullDereference /\
    publishes (snd (amqp_cdr_log H w2 st' cdr)) = 0%nat.
Proof.
  unfold unload_module, ao2_global_obj_ref.
  destruct (Z.eqb_spec (ast_cdr_unregister w) 0) as [Hz|Hz]; cbn [negb];
    (split; [reflexivity|]); (split; [reflexivity|]);
    (split; [auto|]).
  - split.
    + cbn. destruct (Z.eqb_spec (ast_cdr_unregister w) 0);
        [reflexivity | contradiction].
    + intros H w2 cdr Hok. destruct (cdr_packable_packs H cdr Hok) as [j Hj].
      unfold amqp_cdr_log. rewrite Hj. cbn. auto.
  - split.
    + cbn. destruct (Z.eqb_spec (ast_cdr_unregister w) 0);
        [contradiction | reflexivity].
    + intros H w2 cdr Hok. destruct (cdr_packable_packs H cdr Hok) as [j Hj].
      unfold amqp_cdr_log. rewrite Hj. cbn. auto.
Qed.


(** ** Lifetime and immutability of the installed object *)

Section InterleavingMore.
Variable H : Host.
Variable w : world.
Variable cdr : ast_cdr.

Lemma run_consistent (schedule : list move) :
  forall s s', consistent s -> run H w cdr schedule s = Some s' ->
               consistent s'.
Proof.
  induction schedule as [|m rest IH]; intros s s' Hs Hrun.
  - now injection Hrun as <-.
  - cbn [run] in Hrun.
    destruct (step H w cdr m s) as [s1|] eqn:Hstep; [|discriminate].
    exact (IH s1 s' (step_consistent H w cdr m s s1 Hs Hstep) Hrun).
Qed.

Lemma run_rank (schedule : list move) :
  forall s s', consistent s -> run H w cdr schedule s = Some s' ->
               (handler_moves schedule + handler_rank (handler s')
                <= handler_rank (handler s))%nat.
Proof.
  induction schedule as [|m rest IH]; intros s s' Hs Hrun.
  - injection Hrun as <-. cbn. lia.
  - cbn [run] in Hrun.
    destruct (step H w cdr m s) as [s1|] eqn:Hstep; [|discriminate].
    specialize (IH s1 s' (step_consistent H w cdr m s s1 Hs Hstep) Hrun).
    destruct m; cbn [step handler_moves] in *;
      try (destruct (other_step_handler H _ _ _ Hstep) as (Hh & _);
           rewrite Hh in IH; exact IH).
    destruct (Nat.eq_dec (handler_rank (handler s)) 0) as [Hz|Hnz].
    + unfold handler_step in Hstep.
      destruct (handler s); cbn in Hz; try discriminate.
    + destruct (handler_not_stuck H w cdr s Hs Hnz) as (s2 & Hs2 & Hlt).
      rewrite Hstep in Hs2. injection Hs2 as <-. lia.
Qed.

(** X11.  Lifetime: under every schedule of reloads, unloads and other
    handlers, what the handler's reference leads to is alive whenever the
    handler reads through it, so the handler can always take its next step,
    and it is through after at most ten steps of its own. *)
Theorem handler_reference_stays_alive
        (schedule : list move) (s0 s : system) :
  consistent s0 ->
  run H w cdr schedule s0 = Some s ->
  (forall a, handler_conf (handler s) = Some (Some a) ->
             exists o rc, objects s a = Some (o, S rc)) /\
  (handler_rank (handler s) <> 0%nat ->
   exists s', step H w cdr MHandler s = Some s') /\
  (handler_moves schedule + handler_rank (handler s)
   <= handler_rank (handler s0) <= 10)%nat.
Proof.
  intros Hs0 Hrun.
  pose proof (run_consistent schedule s0 s Hs0 Hrun) as Hs.
  split; [|split].
  - intros a Ha. pose proof (held_counted s Hs a) as Hcnt.
    unfold holders in Hcnt.
    rewrite (handler_refers_conf _ _ a Ha), refers_same in Hcnt.
    unfold rc_at in Hcnt.
    destruct (objects s a) as [[o [|rc]]|]; try lia. eauto.
  - intros Hnz. destruct (handler_not_stuck H w cdr s Hs Hnz) as (s' & Hs' & _).
    exists s'. exact Hs'.
  - split; [exact (run_rank schedule s0 s Hs0 Hrun)|].
    destruct (handler s0); cbn; lia.
Qed.

(** A reference of [confs] keeps its target through a release by anybody
    else. *)
Lemma slot_survives_cleanup (s : system) (o : option addr) :
  consistent s ->
  (forall x, (refers (slot s) x + refers o x <= holders s x)%nat) ->
  content (ao2_cleanup (objects s) o) (slot s) = content (objects s) (slot s).
Proof.
  intros Hs Hle. apply content_cleanup. intros x Hx.
  pose proof (held_counted s Hs x) as Hcnt. specialize (Hle x).
  rewrite Hx, refers_same in Hle.
  pose proof (refers_le_1 o x). destruct (refers o x) as [|[|n]]; [left|right|];
    lia.
Qed.

Lemma slot_survives_write (s : system) (p : addr)
      (v : option (cdr_amqp_conf * nat)) :
  refers (slot s) p = 0%nat ->
  content (heap_set (objects s) p v) (slot s) = content (objects s) (slot s).
Proof.
  intros Hz. apply content_set. intros x Hx. rewrite Hx in Hz.
  now rewrite refers_sym.
Qed.

Lemma unpublished_not_in_slot (s : system) (p : addr) :
  consistent s -> unpublished (control s) = Some p ->
  refers (slot s) p = 0%nat.
Proof.
  intros Hs Hp. pose proof (pending_private s Hs p Hp) as Hone.
  pose proof (unpublished_refers _ _ Hp). unfold holders in Hone. lia.
Qed.

Lemma step_keeps_installed (m : move) (s s' : system) :
  consistent s -> replaces_confs m = false ->
  step H w cdr m s = Some s' ->
  slot s' = slot s /\
  content (objects s') (slot s') = content (objects s) (slot s).
Proof.
  intros Hs Hm Hstep.
  destruct m; cbn [replaces_confs] in Hm; try discriminate;
    cbn [step] in Hstep.
  - (* the handler *)
    unfold handler_step in Hstep.
    destruct (handler s) eqn:Hpc;
      repeat match type of Hstep with
             | context [match ?x with _ => _ end] => destruct x
             end;
      try discriminate; injection Hstep as <-;
      cbn [set_handler slot objects]; (split; [reflexivity|]);
      try reflexivity.
    + apply content_bump.
    + apply slot_survives_cleanup; [exact Hs|].
      intros x. unfold holders, handler_refers. rewrite Hpc. cbn. lia.
  - (* allocation of the pending object *)
    unfold other_step in Hstep.
    destruct (control s) eqn:Hctl; try discriminate.
    destruct (objects s p) eqn:Hfree; [discriminate|].
    destruct (conf_alloc H w0 opts); [|discriminate].
    injection Hstep as <-. cbn [set_control slot objects].
    split; [reflexivity|]. apply slot_survives_write.
    pose proof (held_counted s Hs p) as Hcnt.
    unfold rc_at, holders in Hcnt. rewrite Hfree in Hcnt. lia.
  - (* filling it *)
    unfold other_step in Hstep.
    destruct (control s) eqn:Hctl; try discriminate.
    pose proof (unpublished_not_in_slot s p Hs) as Hz. rewrite Hctl in Hz.
    specialize (Hz eq_refl).
    destruct (objects s p) as [[o rc]|]; [|discriminate].
    destruct (conf_file_status w0); try (injection Hstep as <-; now split).
    destruct (global o) as [g|]; [|injection Hstep as <-; now split].
    destruct (aco_process_vars H opts vars g);
      injection Hstep as <-; cbn [set_control slot objects];
      (split; [reflexivity|]); [now apply slot_survives_write | reflexivity].
  - (* setup_amqp *)
    unfold other_step in Hstep.
    destruct (control s) eqn:Hctl; try discriminate.
    pose proof (unpublished_not_in_slot s p Hs) as Hz. rewrite Hctl in Hz.
    specialize (Hz eq_refl).
    destruct (objects s p) as [[o rc]|]; [|discriminate].
    destruct (setup_amqp w0 (Some o)) as [[r [o'|]] evs]; [|discriminate].
    injection Hstep as <-. cbn [set_control slot objects].
    split; [reflexivity|]. now apply slot_survives_write.
  - (* the pending reference is dropped *)
    unfold other_step in Hstep.
    destruct (control s) eqn:Hctl; try discriminate;
      injection Hstep as <-;
      (split; [reflexivity|]);
      change (content (ao2_cleanup (objects s) (Some p)) (slot s)
              = content (objects s) (slot s));
      (apply slot_survives_cleanup; [exact Hs|]);
      intros x; unfold holders; rewrite Hctl; cbn [pending]; lia.
  - (* another handler takes a reference *)
    unfold other_step in Hstep.
    assert (match slot s with
            | Some a =>
                Some (set_others s (ao2_bump (objects s) (Some a))
                        (fun y => if Nat.eqb y a then S (others s y)
                                  else others s y))
            | None => Some s
            end = Some s') as Hstep'
        by (destruct (control s); exact Hstep).
    destruct (slot s) as [a|] eqn:Hslot; injection Hstep' as <-;
      [|rewrite Hslot; split; reflexivity].
    split; [exact Hslot|].
    change (content (ao2_bump (objects s) (Some a)) (slot s)
            = content (objects s) (Some a)).
    rewrite Hslot. apply content_bump.
  - (* another handler drops its reference *)
    unfold other_step in Hstep.
    assert (match others s x with
            | S n =>
                Some (set_others s (ao2_cleanup (objects s) (Some x))
                        (fun y => if Nat.eqb y x then n else others s y))
            | O => None
            end = Some s') as Hstep'
        by (destruct (control s); exact Hstep).
    destruct (others s x) as [|n] eqn:Hn; [discriminate|].
    injection Hstep' as <-.
    split; [reflexivity|].
    change (content (ao2_cleanup (objects s) (Some x)) (slot s)
            = content (objects s) (slot s)).
    apply slot_survives_cleanup; [exact Hs|].
    intros y. unfold holders. cbn [refers].
    destruct (Nat.eqb_spec x y) as [<-|]; lia.
Qed.

(** X12.  The installed object is never written: along any schedule
    without an install or an unload (the handler running, other handlers
    coming and going, a reload allocating, filling, checking and dropping
    its pending object), [confs] refers to the same object with the same
    contents; [setup_amqp] and the framework write only to the pending
    one. *)
Theorem installed_configuration_is_immutable
        (schedule : list move) (s0 s : system) :
  consistent s0 ->
  forallb (fun m => negb (replaces_confs m)) schedule = true ->
  run H w cdr schedule s0 = Some s ->
  slot s = slot s0 /\
  content (objects s) (slot s) = content (objects s0) (slot s0).
Proof.
  revert s0. induction schedule as [|m rest IH]; intros s0 Hs0 Hall Hrun.
  - injection Hrun as <-. split; reflexivity.
  - cbn [run forallb] in *. apply andb_prop in Hall. destruct Hall as [Hm Hrest].
    apply negb_true_iff in Hm.
    destruct (step H w cdr m s0) as [s1|] eqn:Hstep; [|discriminate].
    destruct (step_keeps_installed m s0 s1 Hs0 Hm Hstep) as [Hslot Hcont].
    destruct (IH s1 (step_consistent H w cdr m s0 s1 Hs0 Hstep) Hrest Hrun)
      as [Hslot' Hcont'].
    split; congruence.
Qed.

End InterleavingMore.

(** ** The further statements on concrete calls *)



(** X6, on a reload from a file that sets the queue only: the connection
    with the empty name is asked for, there is none, nothing changes. *)
Lemma load_asks_for_the_empty_name :
  let w := TestHost.world_with (CONFIG_LOADED [("queue", "cdr_a")]) in
  let st := TestHost.holding TestHost.both_flags in
  let '(r, st', evs) := load_config TestHost.host w st true in
  (r = -1 /\ st' = st /\ connection_requests evs = [EmptyString]) /\
  ((forall n, In n (connection_requests evs) -> n = EmptyString) /\
   (r = 0 ->
    evs = [EvGetConnection EmptyString] /\
    exists g a,
      ast_amqp_get_connection w EmptyString = Some a /\
      confs st' = Some (mkConf (Some g)) /\
      connection g = EmptyString /\ amqp g = Some a /\
      exchange g = EmptyString /\ queue g = "cdr_a") /\
   (ast_amqp_get_connection w EmptyString = None -> r = -1 /\ st' = st)).
Proof.
  split; [vm_compute; auto|].
  exact (load_asks_for_the_configured_connection TestHost.host
           (TestHost.world_with (CONFIG_LOADED [("queue", "cdr_a")]))
           (TestHost.holding TestHost.both_flags) true
           [("queue", "cdr_a")] eq_refl eq_refl).
Defined.

(** X8, on a file that names the connection and an exchange. *)
Lemma publish_follows_the_file_example :
  let vars := [("connection", "bunny"); ("exchange", "cdrs")] in
  let w := TestHost.world_with (CONFIG_LOADED vars) in
  fst (fst (load_module TestHost.host w unloaded)) = AST_MODULE_LOAD_SUCCESS /\
  (exists call,
      first_publish
        (snd (amqp_cdr_log TestHost.host TestHost.quiet
                (snd (fst (load_module TestHost.host w unloaded)))
                TestHost.alice)) = Some call /\
      p_exchange call = "cdrs" /\ p_routing_key call = "asterisk_cdr" /\
      p_cxn call = Some 7%nat) /\
  (let '(r, st', _) := load_module TestHost.host w unloaded in
   r = AST_MODULE_LOAD_SUCCESS ->
   forall (w2 : world) (cdr : ast_cdr) (call : publish_call),
     In (EvPublish call) (snd (amqp_cdr_log TestHost.host w2 st' cdr)) ->
     p_exchange call = "cdrs" /\
     p_routing_key call = "asterisk_cdr" /\
     exists a,
       p_cxn call = Some a /\
       ast_amqp_get_connection w "bunny" = Some a).
Proof.
  split; [reflexivity|]. split.
  - eexists. split; [vm_compute; reflexivity|]. repeat split.
  - exact (publish_follows_the_file TestHost.host
             (TestHost.world_with
                (CONFIG_LOADED [("connection", "bunny"); ("exchange", "cdrs")]))
             [("connection", "bunny"); ("exchange", "cdrs")] eq_refl).
Defined.

(** X13, on a file that switches the unique id on and says nothing of the
    user field. *)
Lemma optional_fields_follow_the_file_example :
  let vars := [("connection", "bunny"); ("loguniqueid", "Yes")] in
  let w := TestHost.world_with (CONFIG_LOADED vars) in
  fst (fst (load_module TestHost.host w unloaded)) = AST_MODULE_LOAD_SUCCESS /\
  (let '(r, st', _) := load_module TestHost.host w unloaded in
   r = AST_MODULE_LOAD_SUCCESS ->
   forall (w2 : world) (cdr : ast_cdr) (doc : object),
     In (EvJsonDump (JObject doc)) (snd (amqp_cdr_log TestHost.host w2 st' cdr)) ->
     keys doc
     = (required_keys
        ++ keys (optional_member TestHost.host (-1) "uniqueid" (uniqueid cdr))
        ++ keys (optional_member TestHost.host 0 "userfield" (userfield cdr)))%list).
Proof.
  split; [reflexivity|].
  exact (optional_fields_follow_the_file TestHost.host
           (TestHost.world_with
              (CONFIG_LOADED [("connection", "bunny"); ("loguniqueid", "Yes")]))
           [("connection", "bunny"); ("loguniqueid", "Yes")] eq_refl).
Defined.

(** X9, on the module after a load and a reload that found no connection. *)
Lemma running_handler_example :
  let st1 :=
    snd (fst (load_module TestHost.host
                (TestHost.world_with (CONFIG_LOADED [("connection", "bunny")]))
                unloaded)) in
  let st :=
    snd (fst (reload_module TestHost.host
                (TestHost.world_with (CONFIG_LOADED [("connection", "rabbit")]))
                st1)) in
  (exists g a, ao2_global_obj_ref st = Some (mkConf (Some g)) /\
               amqp g = Some a) /\
  forall (w : world) (cdr : ast_cdr),
    (fst (amqp_cdr_log TestHost.host w st cdr) = Returned 0
     \/ fst (amqp_cdr_log TestHost.host w st cdr) = Returned (-1)) /\
    forall call, In (EvPublish call) (snd (amqp_cdr_log TestHost.host w st cdr)) ->
                 p_cxn call <> None.
Proof.
  apply (running_handler_always_returns TestHost.host).
  - apply run_reload, run_load, run_unloaded.
  - reflexivity.
Defined.

(** X14, on the module holding [both_flags]. *)
Lemma reload_unchanged_example :
  reload_module TestHost.host TestHost.quiet
    (TestHost.holding TestHost.both_flags)
  = (0, TestHost.holding TestHost.both_flags, []).
Proof.
  apply (reload_unchanged_keeps_snapshot TestHost.host TestHost.quiet
           (TestHost.holding TestHost.both_flags)
           (mkConf (Some TestHost.both_flags)) TestHost.both_flags);
    reflexivity.
Defined.

(** X11, on the run of the reload example: the handler is through after its
    ten steps and the object it took is still there when it reads it. *)
Lemma handler_reference_example :
  let w' := TestHost.world_handing 8%nat
              (CONFIG_LOADED [("connection", "bunny"); ("queue", "elsewhere")]) in
  let schedule :=
    [MHandler; MHandler; MBegin w' registered_options 1%nat;
     MFill w' registered_options; MHandler; MSetup w'; MInstall; MDrop;
     MHandler; MHandler; MHandler; MHandler; MHandler; MHandler] in
  let s0 := serving (mkConf (Some TestHost.both_flags)) in
  exists s,
    run TestHost.host TestHost.quiet TestHost.alice schedule s0 = Some s /\
    handler s = H_return (Some 0%nat) 0 /\
    ((forall a, handler_conf (handler s) = Some (Some a) ->
                exists o rc, objects s a = Some (o, S rc)) /\
     (handler_rank (handler s) <> 0%nat ->
      exists s', step TestHost.host TestHost.quiet TestHost.alice MHandler s
                 = Some s') /\
     (handler_moves schedule + handler_rank (handler s)
      <= handler_rank (handler s0) <= 10)%nat).
Proof.
  cbv zeta. eexists. split; [vm_compute; reflexivity|].
  split; [reflexivity|].
  apply (handler_reference_stays_alive TestHost.host TestHost.quiet
           TestHost.alice
           [MHandler; MHandler;
            MBegin (TestHost.world_handing 8%nat
                      (CONFIG_LOADED [("connection", "bunny");
                                      ("queue", "elsewhere")]))
                   registered_options 1%nat;
            MFill (TestHost.world_handing 8%nat
                     (CONFIG_LOADED [("connection", "bunny");
                                     ("queue", "elsewhere")]))
                  registered_options;
            MHandler;
            MSetup (TestHost.world_handing 8%nat
                      (CONFIG_LOADED [("connection", "bunny");
                                      ("queue", "elsewhere")]));
            MInstall; MDrop;
            MHandler; MHandler; MHandler; MHandler; MHandler; MHandler]
           (serving (mkConf (Some TestHost.both_flags))));
    [apply serving_consistent | vm_compute; reflexivity].
Defined.

(** X12, on a run in which a reload fails for want of a connection while
    the handler and another handler are at work. *)
Lemma installed_configuration_example :
  let w' := TestHost.world_with (CONFIG_LOADED [("connection", "rabbit")]) in
  let schedule :=
    [MHandler; MHandler; MBegin w' registered_options 1%nat;
     MFill w' registered_options; MOtherAcquire; MSetup w'; MDrop;
     MHandler; MOtherRelease 0%nat; MHandler] in
  let s0 := serving (mkConf (Some TestHost.both_flags)) in
  exists s,
    run TestHost.host TestHost.quiet TestHost.alice schedule s0 = Some s /\
    control s = C_idle /\
    (slot s = slot s0 /\
     content (objects s) (slot s) = content (objects s0) (slot s0)).
Proof.
  cbv zeta. eexists. split; [vm_compute; reflexivity|].
  split; [reflexivity|].
  apply (installed_configuration_is_immutable TestHost.host TestHost.quiet
           TestHost.alice
           [MHandler; MHandler;
            MBegin (TestHost.world_with (CONFIG_LOADED [("connection", "rabbit")]))
                   registered_options 1%nat;
            MFill (TestHost.world_with (CONFIG_LOADED [("connection", "rabbit")]))
                  registered_options;
            MOtherAcquire;
            MSetup (TestHost.world_with (CONFIG_LOADED [("connection", "rabbit")]));
            MDrop; MHandler; MOtherRelease 0%nat; MHandler]
           (serving (mkConf (Some TestHost.both_flags))));
    [apply serving_consistent | reflexivity | vm_compute; reflexivity].
Defined.

(** C8.  The module is loaded, then unloaded while the host refuses to
    unregister the backend, and the handler is called on [alice]: the
    record packs and nothing fails to encode, yet the call makes no publish
    call and does not return a result, where it should have made exactly
    one or returned -1.  It stops at the read through the NULL
    configuration, before the dump. *)
Theorem refused_unload_call_neither_publishes_nor_fails :
  let loaded :=
    snd (fst (load_module TestHost.host
                (TestHost.world_with (CONFIG_LOADED [("connection", "bunny")]))
                unloaded)) in
  let st := snd (unload_module TestHost.busy loaded) in
  let out := fst (amqp_cdr_log TestHost.host TestHost.quiet st TestHost.alice) in
  let evs := snd (amqp_cdr_log TestHost.host TestHost.quiet st TestHost.alice) in
  reachable TestHost.host st /\ cdr_registered st = true /\
  cdr_packable TestHost.host TestHost.alice /\
  (exists j,
      ast_json_pack TestHost.host cdr_pack_format
        (cdr_pack_args TestHost.host TestHost.alice) = Some j /\
      evs = [EvJsonPack (Some j)]) /\
  publishes evs = 0%nat /\
  out = NullDereference /\
  (forall r, out <> Returned r).
Proof.
  intros loaded st out evs.
  assert (exists j,
             ast_json_pack TestHost.host cdr_pack_format
               (cdr_pack_args TestHost.host TestHost.alice) = Some j /\
             amqp_cdr_log TestHost.host TestHost.quiet st TestHost.alice
             = (NullDereference, [EvJsonPack (Some j)])) as (j & Hj & Hlog)
      by (eexists; split; vm_compute; reflexivity).
  subst out evs. rewrite Hlog. cbn [fst snd].
  split; [apply reach_unload, reach_load, reach_unloaded|].
  split; [vm_compute; reflexivity|].
  split; [exact (cdr_pack_accepts TestHost.host TestHost.alice j Hj)|].
  split; [exists j; split; [exact Hj | reflexivity]|].
  split; [reflexivity|]. split; [reflexivity|]. intros r. discriminate.
Qed.

(** ** The integers of the document *)

(** X15.  The two integers of every dumped document are what the [i]
    directive reads from the record's [duration] and [billsec]: a C [int],
    that is the field itself when it fits one and its low 32 bits as a
    signed number when it does not. *)
Theorem packed_integers_are_c_ints
        (H : Host) (w : world) (st : module_state) (cdr : ast_cdr)
        (doc : object) :
  In (EvJsonDump (JObject doc)) (snd (amqp_cdr_log H w st cdr)) ->
  object_get doc "durationsec" = Some (JInteger (c_int (duration cdr))) /\
  object_get doc "billsec" = Some (JInteger (c_int (billsec cdr))) /\
  (- 2 ^ 31 <= duration cdr < 2 ^ 31 ->
   object_get doc "durationsec" = Some (JInteger (duration cdr))) /\
  (- 2 ^ 31 <= billsec cdr < 2 ^ 31 ->
   object_get doc "billsec" = Some (JInteger (billsec cdr))) /\
  - 2 ^ 31 <= c_int (duration cdr) < 2 ^ 31 /\
  - 2 ^ 31 <= c_int (billsec cdr) < 2 ^ 31.
Proof.
  intros Hin.
  destruct (dumped_document H w st cdr _ Hin)
    as (conf & g & s & a & e & _ & _ & _ & Hdoc).
  injection Hdoc as ->.
  assert (forall tail,
             object_get (cdr_members H cdr s a e ++ tail)%list "durationsec"
             = Some (JInteger (c_int (duration cdr))) /\
             object_get (cdr_members H cdr s a e ++ tail)%list "billsec"
             = Some (JInteger (c_int (billsec cdr)))) as Hget
      by (intros tail; split; reflexivity).
  destruct (Hget (optional_member H (loguniqueid g) "uniqueid" (uniqueid cdr)
                  ++ optional_member H (loguserfield g) "userfield"
                       (userfield cdr))%list) as [Hd Hb].
  split; [exact Hd|]. split; [exact Hb|].
  split; [intros Hr; etransitivity; [exact Hd|]; now rewrite (c_int_fits _ Hr)|].
  split; [intros Hr; etransitivity; [exact Hb|]; now rewrite (c_int_fits _ Hr)|].
  split; apply c_int_range.
Qed.

(** X15, on a call of 2^32 + 30 seconds, 2^31 of them billable: the
    document says 30 and -2^31. *)
Lemma packed_integers_example :
  exists doc,
    In (EvJsonDump (JObject doc))
       (snd (amqp_cdr_log TestHost.host TestHost.quiet
               (TestHost.holding TestHost.both_flags) TestHost.marathon)) /\
    object_get doc "durationsec" = Some (JInteger 30) /\
    object_get doc "billsec" = Some (JInteger (- 2147483648)) /\
    (object_get doc "durationsec"
     = Some (JInteger (c_int (duration TestHost.marathon))) /\
     object_get doc "billsec"
     = Some (JInteger (c_int (billsec TestHost.marathon))) /\
     (- 2 ^ 31 <= duration TestHost.marathon < 2 ^ 31 ->
      object_get doc "durationsec"
      = Some (JInteger (duration TestHost.marathon))) /\
     (- 2 ^ 31 <= billsec TestHost.marathon < 2 ^ 31 ->
      object_get doc "billsec" = Some (JInteger (billsec TestHost.marathon))) /\
     - 2 ^ 31 <= c_int (duration TestHost.marathon) < 2 ^ 31 /\
     - 2 ^ 31 <= c_int (billsec TestHost.marathon) < 2 ^ 31).
Proof.
  eexists. split; [vm_compute; right; left; reflexivity|].
  split; [reflexivity|]. split; [reflexivity|].
  apply (packed_integers_are_c_ints TestHost.host TestHost.quiet
           (TestHost.holding TestHost.both_flags) TestHost.marathon).
  vm_compute. right; left; reflexivity.
Defined.
